(** * DataQualityChecker: a shallow embedding of scripts/data_quality_ckeck.py

    The checker reads a newline-delimited JSON file into a list of records and
    runs a fixed battery of checks over it, reporting every finding to the
    module logger.  Records are decoded JSON objects; the log is the only
    output.  The embedding keeps the checker object, the log and the raised
    exception explicit. *)

From Stdlib Require Import ZArith Ascii Floats.SpecFloat.
From stdpp Require Import base strings list gmap pretty.

#[local] Set Warnings "-register-all".

Local Open Scope string_scope.
Local Open Scope list_scope.
Local Open Scope Z_scope.

(** ** Decoded JSON values *)

(** What [json.loads] produces: [None], [bool], [int], [float], [str], [list]
    and [dict].  A [dict] keeps its insertion order, so it is an association
    list; the decoder never produces a repeated key.  A [float] is an IEEE
    binary64 value. *)
Inductive json : Type :=
| JNull
| JBool (b : bool)
| JInt (z : Z)
| JFloat (f : spec_float)
| JStr (s : string)
| JList (l : list json)
| JDict (d : list (string * json)).

Abbreviation dict := (list (string * json)).

Module Dict.

(** [d.get(key)]: the value stored under [key]. *)
Fixpoint get (key : string) (d : dict) : option json :=
  match d with
  | [] => None
  | (k, v) :: rest => if String.eqb k key then Some v else get key rest
  end.

(** [key in d]. *)
Definition mem (key : string) (d : dict) : bool :=
  match get key d with Some _ => true | None => false end.

(** [d[key] = value]: overwrite in place, or append a new entry. *)
Fixpoint set (key : string) (value : json) (d : dict) : dict :=
  match d with
  | [] => [(key, value)]
  | (k, v) :: rest =>
      if String.eqb k key then (k, value) :: rest
      else (k, v) :: set key value rest
  end.

(** [d.update(other)]. *)
Definition update (d other : dict) : dict :=
  fold_left (fun acc kv => set kv.1 kv.2 acc) other d.

(** [set(d.keys())]. *)
Definition keys (d : dict) : gset string := list_to_set (d.*1).

End Dict.

(** ** Exceptions, the log and the checker object *)

Inductive Exn : Type :=
| KeyError (key : string)
| TypeError
| OSError
| JSONDecodeError
| FileNotFoundError.

Inductive Res (A : Type) : Type :=
| Ok (a : A)
| Raise (e : Exn).
Arguments Ok {A} a.
Arguments Raise {A} e.

#[global] Instance Res_ret : MRet Res := fun A a => Ok a.

#[global] Instance Res_bind : MBind Res := fun A B f r =>
  match r with
  | Ok a => f a
  | Raise e => Raise e
  end.

(** A list comprehension whose element expression may raise: the first
    exception ends it. *)
Fixpoint comprehension {A B} (f : A -> Res B) (xs : list A) : Res (list B) :=
  match xs with
  | [] => Ok []
  | x :: rest =>
      match f x with
      | Ok y =>
          match comprehension f rest with
          | Ok ys => Ok (y :: ys)
          | Raise e => Raise e
          end
      | Raise e => Raise e
      end
  end.

Inductive Level : Type := INFO | WARNING | ERROR.

Abbreviation LogRecord := (Level * string)%type.

(** The fields [DataQualityChecker.__init__] sets: [data] starts as [None],
    [entity] is the base name of the file without its extension.  A record is
    a mapping, as the signatures of the checks say ([item: Dict]). *)
Record Checker : Type := mkChecker {
  file_path : string;
  data : option (list dict);
  entity : string
}.

(** The world a method runs in: the object it is called on and the lines the
    logger has written so far. *)
Record State : Type := mkState {
  self : Checker;
  log : list LogRecord
}.

Definition emit (st : State) (records : list LogRecord) : State :=
  mkState (self st) (log st ++ records).

Definition M (A : Type) : Type := State -> Res A * State.

#[global] Instance M_ret : MRet M := fun A a st => (Ok a, st).

#[global] Instance M_bind : MBind M := fun A B f m st =>
  match m st with
  | (Ok a, st') => f a st'
  | (Raise e, st') => (Raise e, st')
  end.

Definition raise {A} (e : Exn) : M A := fun st => (Raise e, st).

Definition lift {A} (r : Res A) : M A := fun st => (r, st).

Definition get_self : M Checker := fun st => (Ok (self st), st).

Definition set_data (d : list dict) : M unit := fun st =>
  (Ok tt, mkState (mkChecker (file_path (self st)) (Some d) (entity (self st))) (log st)).

Definition logger (level : Level) (msg : string) : M unit := fun st =>
  (Ok tt, emit st [(level, msg)]).

(** [for x in xs: body(x)]. *)
Fixpoint for_each {A} (xs : list A) (body : A -> M unit) : M unit :=
  match xs with
  | [] => mret tt
  | x :: rest => body x ;; for_each rest body
  end.

(** [enumerate(xs)]. *)
Definition enumerate {A} (xs : list A) : list (nat * A) := imap (fun i x => (i, x)) xs.

(** ** Built-ins of the Python runtime

    The program calls into the interpreter and the platform; what it observes
    of them is collected here.  Every definition below is parametric in the
    runtime. *)

(** Outcome of [datetime.fromtimestamp(timestamp / 1000)] on a number: the
    rendered local time, one of the exceptions the caller catches
    ([ValueError], [OverflowError]), or [OSError] from the platform's
    [localtime], which the caller does not catch. *)
Inductive Conversion : Type :=
| Converted (date : string)
| Rejected
| PlatformError.

Class Runtime : Type := {
  (** [list(JsonFileReader.read_json_file(path))] *)
  read_json_file : string -> Res (list dict);
  (** [float(s)] on a string; [None] is [ValueError] *)
  float_of_str : string -> option spec_float;
  (** [repr(v)], used for floats and containers *)
  repr : json -> string;
  (** [datetime.fromtimestamp(n / 1000)] on an [int], [bool] or [float] *)
  fromtimestamp_ms : json -> Conversion
}.

(** ** Values as the program inspects them *)

(** [isinstance(v, (int, float))]; [bool] is a subclass of [int]. *)
Definition is_number (v : json) : bool :=
  match v with
  | JBool _ | JInt _ | JFloat _ => true
  | _ => false
  end.

(** [v < 0]: defined on numbers, [TypeError] on anything else. *)
Definition lt_zero (v : json) : Res bool :=
  match v with
  | JBool _ => Ok false
  | JInt z => Ok (z <? 0)
  | JFloat f => Ok (SFltb f (S754_zero false))
  | _ => Raise TypeError
  end.

(** Truth value of an object, as [not v] and [if v] test it. *)
Definition truthy (v : json) : bool :=
  match v with
  | JNull => false
  | JBool b => b
  | JInt z => negb (z =? 0)
  | JFloat (S754_zero _) => false
  | JFloat _ => true
  | JStr s => negb (String.eqb s "")
  | JList l => match l with [] => false | _ => true end
  | JDict d => match d with [] => false | _ => true end
  end.

(** [container[key]] with a string key. *)
Definition getitem (container : json) (key : string) : Res json :=
  match container with
  | JDict d =>
      match Dict.get key d with
      | Some v => Ok v
      | None => Raise (KeyError key)
      end
  | _ => Raise TypeError
  end.

(** [str(v)]. *)
Definition str `{Runtime} (v : json) : string :=
  match v with
  | JStr s => s
  | JInt z => pretty z
  | JBool true => "True"
  | JBool false => "False"
  | JNull => "None"
  | _ => repr v
  end.

(** *** Hashing and key equality

    A [Counter] is a [dict]: two elements share an entry when they are equal
    and hash alike.  Numbers compare by value across [bool], [int] and
    [float]; the decoder's [NaN] is one object, hence one key. *)
Inductive HashKey : Type :=
| HNone
| HStr (s : string)
| HInt (z : Z)
| HFloat (f : spec_float).

#[global] Instance spec_float_eq_dec : EqDecision spec_float.
Proof. solve_decision. Defined.

#[global] Instance HashKey_eq_dec : EqDecision HashKey.
Proof. solve_decision. Defined.

(** The integer a float is equal to, when there is one. *)
Definition float_as_int (f : spec_float) : option Z :=
  match f with
  | S754_zero _ => Some 0
  | S754_finite s m e =>
      let sign := if s then -1 else 1 in
      if 0 <=? e then Some (sign * (Z.pos m * 2 ^ e))
      else if Z.pos m mod 2 ^ (- e) =? 0 then Some (sign * (Z.pos m / 2 ^ (- e)))
      else None
  | _ => None
  end.

(** [None] for the unhashable values, [list] and [dict]. *)
Definition hash_key (v : json) : option HashKey :=
  match v with
  | JNull => Some HNone
  | JBool b => Some (HInt (if b then 1 else 0))
  | JInt z => Some (HInt z)
  | JFloat f =>
      match float_as_int f with
      | Some z => Some (HInt z)
      | None => Some (HFloat f)
      end
  | JStr s => Some (HStr s)
  | JList _ | JDict _ => None
  end.

Definition same_key (a b : json) : bool := bool_decide (hash_key a = hash_key b).

(** [count[elem] += 1]: the entry keeps the element that created it. *)
Fixpoint increment (elem : json) (count : list (json * nat)) : list (json * nat) :=
  match count with
  | [] => [(elem, 1%nat)]
  | (k, n) :: rest =>
      if same_key k elem then (k, S n) :: rest
      else (k, n) :: increment elem rest
  end.

Fixpoint Counter_update (count : list (json * nat)) (elems : list json)
  : Res (list (json * nat)) :=
  match elems with
  | [] => Ok count
  | elem :: rest =>
      match hash_key elem with
      | Some _ => Counter_update (increment elem count) rest
      | None => Raise TypeError
      end
  end.

(** [Counter(elems)]. *)
Definition Counter (elems : list json) : Res (list (json * nat)) :=
  Counter_update [] elems.

(** ** The checks *)

(** [find_duplicates]: the method does not use [self] and does not log. *)
Definition find_duplicates (data : list json) : Res (list json) :=
  oid_values ← comprehension (fun item => getitem item "$oid") data;
  count ← Counter oid_values;
  mret ((filter (fun '(oid, freq) => (1 < freq)%nat) count).*1).

(** [key.lower()], on the ASCII letters. *)
Definition lower_char (c : ascii) : ascii :=
  let n := N_of_ascii c in
  if ((65 <=? n) && (n <=? 90))%N then ascii_of_N (n + 32) else c.

Fixpoint lower (s : string) : string :=
  match s with
  | EmptyString => EmptyString
  | String c rest => String (lower_char c) (lower rest)
  end.

(** [needle in haystack] on strings. *)
Fixpoint contains (needle haystack : string) : bool :=
  String.prefix needle haystack ||
  match haystack with
  | EmptyString => false
  | String _ rest => contains needle rest
  end.

(** The fields order matter - DO NOT CHANGE! *)
Definition date_fields : list string :=
  [ "lastLogin"; "createDate"; "dateScanned"; "finishedDate"; "modifyDate";
    "pointsAwardedDate"; "purchaseDate" ].

Section Checks.

Context `{Runtime}.

(** The leaf branch of [check_negative_values]: the number to record, if
    any.  [float(value)] on a string that is no number raises [ValueError],
    which the scanner swallows. *)
Definition negative_leaf (value : json) : option json :=
  let num_value :=
    match value with
    | JStr s => JFloat <$> float_of_str s
    | _ => Some value
    end in
  match num_value with
  | Some n =>
      if is_number n && (match lt_zero n with Ok b => b | Raise _ => false end)
      then Some n else None
  | None => None
  end.

Fixpoint check_negative_values (data : json) (path : string) : dict :=
  match data with
  | JDict d =>
      (fix items (kvs : dict) (negative_values : dict) : dict :=
         match kvs with
         | [] => negative_values
         | (key, value) :: rest =>
             let new_path :=
               match path with
               | EmptyString => key
               | _ => path +:+ "." +:+ key
               end in
             items rest
               match value with
               | JDict _ | JList _ =>
                   Dict.update negative_values (check_negative_values value new_path)
               | _ =>
                   match negative_leaf value with
                   | Some num_value => Dict.set new_path num_value negative_values
                   | None => negative_values
                   end
               end
         end) d []
  | JList l =>
      (fix items (index : nat) (elems : list json) (negative_values : dict) : dict :=
         match elems with
         | [] => negative_values
         | item :: rest =>
             let new_path := path +:+ "[" +:+ pretty index +:+ "]" in
             items (S index) rest
               (Dict.update negative_values (check_negative_values item new_path))
         end) 0%nat l []
  | _ => []
  end.

Definition check_negative_values_in_item (item : dict) : M unit :=
  c ← get_self;
  let result := check_negative_values (JDict item) "" in
  let result :=
    Dict.update result (check_negative_values (JDict item) "rewardsReceiptItemList") in
  match result with
  | _ :: _ =>
      logger WARNING "Negative values found:" ;;
      for_each result (fun '(key, value) => logger INFO (key +:+ ": " +:+ str value))
  | [] => logger INFO ("No negative values found in " +:+ entity c +:+ ".")
  end.

Definition check_schema_consistency (item : dict) (index : nat)
    (expected_keys : gset string) : M unit :=
  c ← get_self;
  if bool_decide (Dict.keys item ≠ expected_keys) then
    logger WARNING
      ("Inconsistent schema in " +:+ entity c +:+ " at line number " +:+ pretty index)
  else mret tt.

(** The body of the loop of [check_date_format], for one recognized field;
    [c] is [self]. *)
Definition check_date_field (c : Checker) (item : dict) (index : nat) (field : string)
    : M unit :=
  match Dict.get field item with
  | Some value =>
      match value with
      | JDict d =>
          match Dict.get "$date" d with
          | Some timestamp =>
              if is_number timestamp then
                match fromtimestamp_ms timestamp with
                | Converted date =>
                    logger INFO
                      (field +:+ ": Valid date - " +:+ date +:+ " in " +:+ entity c)
                | Rejected =>
                    logger WARNING
                      (field +:+ ": Invalid date format in " +:+ entity c)
                | PlatformError => raise OSError
                end
              else
                (* [timestamp / 1000] raises [TypeError], caught *)
                logger WARNING (field +:+ ": Invalid date format in " +:+ entity c)
          | None =>
              logger WARNING
                (field +:+ ": Incorrect date format found in " +:+ entity c
                   +:+ " at line number " +:+ pretty index
                   +:+ " (expected {'$date': timestamp})")
          end
      | _ =>
          logger WARNING
            (field +:+ ": Incorrect date format found in " +:+ entity c
               +:+ " at line number " +:+ pretty index
               +:+ " (expected {'$date': timestamp})")
      end
  | None =>
      (* Only Receipts and Users has date fields *)
      if String.eqb (entity c) "receipts" && bool_decide (field ∈ drop 1 date_fields) then
        logger WARNING
          ("Missing date field '" +:+ field +:+ "' in receipts data at line number "
             +:+ pretty index)
      else if String.eqb (entity c) "users" && bool_decide (field ∈ take 1 date_fields) then
        logger WARNING
          ("Missing date field '" +:+ field +:+ "' in users data at line number "
             +:+ pretty index)
      else mret tt
  end.

Definition check_date_format (item : dict) (index : nat) : M unit :=
  c ← get_self;
  for_each date_fields (check_date_field c item index).

Definition check_negative_numeric_fields (key : string) (value : json) (index : nat)
    : M unit :=
  c ← get_self;
  if existsb (fun indicator => contains indicator (lower key))
       ["count"; "amount"; "price"; "quantity"]
  then
    negative ← lift (lt_zero value);
    if (negative : bool) then
      logger WARNING
        ("Negative value for " +:+ key +:+ " found in " +:+ entity c
           +:+ " at line number  " +:+ pretty index)
    else mret tt
  else mret tt.

Definition check_empty_list (key : string) (value : json) (index : nat) : M unit :=
  c ← get_self;
  if negb (truthy value) then
    logger WARNING
      ("Empty list for " +:+ key +:+ " in " +:+ entity c
         +:+ " at line number " +:+ pretty index)
  else mret tt.

Definition check_id_type (item : dict) (index : nat) : M unit :=
  c ← get_self;
  match Dict.get "_id" item with
  | Some id =>
      match id with
      | JDict d =>
          match Dict.get "$oid" d with
          | Some (JStr _) => mret tt
          | Some _ =>
              logger WARNING
                ("Invalid $oid type in _id in " +:+ entity c
                   +:+ " at line number " +:+ pretty index)
          | None =>
              logger WARNING
                ("Invalid _id type found in " +:+ entity c
                   +:+ " at line number " +:+ pretty index)
          end
      | _ =>
          logger WARNING
            ("Invalid _id type found in " +:+ entity c
               +:+ " at line number " +:+ pretty index)
      end
  | None => mret tt
  end.

(** The branch [check_field_types] takes for one value. *)
Inductive Branch : Type := ToDate | ToNumeric | ToList | ToNull | ToNothing.

Definition branch_of (value : json) : Branch :=
  match value with
  | JStr _ => ToDate
  | JBool _ | JInt _ | JFloat _ => ToNumeric
  | JList _ => ToList
  | JNull => ToNull
  | JDict _ => ToNothing
  end.

(** The body of the loop of [check_field_types]. *)
Definition check_field (item : dict) (index : nat) (key : string) (value : json)
    : M unit :=
  c ← get_self;
  match branch_of value with
  | ToDate => check_date_format item index
  | ToNumeric => check_negative_numeric_fields key value index
  | ToList => check_empty_list key value index
  | ToNull =>
      logger WARNING
        ("Null value for " +:+ key +:+ " found in " +:+ entity c
           +:+ " at line number " +:+ pretty index)
  | ToNothing => mret tt
  end.

Definition check_field_types (item : dict) (index : nat) : M unit :=
  for_each item (fun '(key, value) => check_field item index key value) ;;
  check_id_type item index.

Definition check_item (item : dict) (index : nat) (expected_keys : gset string)
    : M unit :=
  check_negative_values_in_item item ;;
  check_schema_consistency item index expected_keys ;;
  check_field_types item index.

Definition check_id_uniqueness (expected_keys : gset string) : M unit :=
  c ← get_self;
  if bool_decide ("_id" ∈ expected_keys) then
    match data c with
    | None => raise TypeError
    | Some records =>
        ids ← lift (comprehension (fun item => getitem (JDict item) "_id")
                      (List.filter (Dict.mem "_id") records));
        duplicate_oids ← lift (find_duplicates ids);
        match duplicate_oids with
        | _ :: _ =>
            logger WARNING ("Duplicate OIDs found in " +:+ entity c) ;;
            for_each duplicate_oids (fun oid => logger INFO (str oid))
        | [] => logger INFO ("No duplicates found in " +:+ entity c +:+ ".")
        end
    end
  else mret tt.

Definition check_json_quality : M unit :=
  c ← get_self;
  match data c with
  | None | Some [] => mret tt
  | Some ((first :: _) as records) =>
      let expected_keys := Dict.keys first in
      for_each (enumerate records)
        (fun '(index, item) => check_item item index expected_keys) ;;
      check_id_uniqueness expected_keys ;;
      logger INFO "Data quality check completed"
  end.

Definition load_data : M unit :=
  c ← get_self;
  match read_json_file (file_path c) with
  | Ok records =>
      set_data records ;;
      match records with
      | [] => logger WARNING "The file is empty"
      | _ :: _ => mret tt
      end
  | Raise JSONDecodeError =>
      logger WARNING "Invalid JSON structure" ;; raise JSONDecodeError
  | Raise FileNotFoundError =>
      logger ERROR ("File not found: " +:+ entity c) ;; raise FileNotFoundError
  | Raise e => raise e
  end.

(** [main]: load, then check. *)
Definition main : M unit := load_data ;; check_json_quality.

End Checks.

(** [DataQualityChecker(path)] with the entity name its constructor derived. *)
Definition new_checker (path entity_name : string) : Checker :=
  mkChecker path None entity_name.

(** ** The constructor and the command-line driver

    [os.path.basename] and [os.path.splitext] are the POSIX ones; indices are
    integers, [-1] for "not found", as [str.rfind] returns them. *)

Fixpoint rfind_from (c : ascii) (s : string) (i found : Z) : Z :=
  match s with
  | EmptyString => found
  | String a rest => rfind_from c rest (i + 1) (if Ascii.eqb a c then i else found)
  end.

(** [s.rfind(c)]. *)
Definition rfind (c : ascii) (s : string) : Z := rfind_from c s 0 (-1).

(** [s[n:]] and [s[:n]] for [0 <= n]. *)
Fixpoint slice_from (n : nat) (s : string) : string :=
  match n, s with
  | O, _ => s
  | S n', String _ rest => slice_from n' rest
  | S _, EmptyString => EmptyString
  end.

Fixpoint slice_to (n : nat) (s : string) : string :=
  match n, s with
  | O, _ => EmptyString
  | S n', String a rest => String a (slice_to n' rest)
  | S _, EmptyString => EmptyString
  end.

(** [posixpath.basename]: what follows the last slash. *)
Definition basename (p : string) : string :=
  slice_from (Z.to_nat (rfind "/" p + 1)) p.

(** The loop of [genericpath._splitext] over [p[filenameIndex:dotIndex]]: it
    stops at the first character that is not a dot. *)
Fixpoint has_non_dot (s : string) : bool :=
  match s with
  | EmptyString => false
  | String a rest => if Ascii.eqb a "." then has_non_dot rest else true
  end.

(** [posixpath.splitext]: the extension starts at the last dot of the last
    component, unless that component has only dots before it. *)
Definition splitext (p : string) : string * string :=
  let sepIndex := rfind "/" p in
  let dotIndex := rfind "." p in
  if sepIndex <? dotIndex then
    let filenameIndex := sepIndex + 1 in
    if has_non_dot
         (slice_to (Z.to_nat (dotIndex - filenameIndex))
            (slice_from (Z.to_nat filenameIndex) p))
    then (slice_to (Z.to_nat dotIndex) p, slice_from (Z.to_nat dotIndex) p)
    else (p, EmptyString)
  else (p, EmptyString).

(** [os.path.splitext(os.path.basename(path))[0]]. *)
Definition entity_of (path : string) : string := (splitext (basename path)).1.

(** [DataQualityChecker.__init__]. *)
Definition DataQualityChecker (path : string) : Checker :=
  mkChecker path None (entity_of path).

(** [main(file_path)] of main.py: a fresh checker, loaded and checked; the
    logger is the module's, so the lines go where the earlier ones went. *)
Definition main_on `{Runtime} (path : string) (written : list LogRecord)
    : Res unit * list LogRecord :=
  let '(r, st) := main (mkState (DataQualityChecker path) written) in (r, log st).

(** The loop of the [__main__] block of main.py. *)
Fixpoint check_files `{Runtime} (paths : list string) (written : list LogRecord)
    : Res unit * list LogRecord :=
  match paths with
  | [] => (Ok tt, written)
  | path :: rest =>
      let base_name := basename path in
      let file_name_without_extension := (splitext base_name).1 in
      let written :=
        written ++
        [(INFO, "Checking " +:+ file_name_without_extension +:+ " data quality...")] in
      match main_on path written with
      | (Ok _, written') => check_files rest written'
      | (Raise e, written') => (Raise e, written')
      end
  end.

Definition paths : list string :=
  ["data/brands.json"; "data/users.json"; "data/receipts.json"].

(** Running main.py as a script; the log file is opened afresh. *)
Definition script `{Runtime} : Res unit * list LogRecord :=
  check_files paths [(INFO, "Starting data quality check...")].

(** ** A runtime to run the embedding on

    Every theorem below holds for all runtimes.  This one serves the worked
    examples: a file system with one empty file, [float] on plain decimal
    integers, and a platform clock that accepts the milliseconds of years 1970
    to 9999 and renders them as a millisecond count. *)
Module Sample.

Fixpoint digits (s : string) (acc : Z) : option Z :=
  match s with
  | EmptyString => Some acc
  | String c rest =>
      let n := Z.of_N (N_of_ascii c) in
      if (48 <=? n) && (n <=? 57) then digits rest (10 * acc + (n - 48)) else None
  end.

Definition decimal (s : string) : option spec_float :=
  match s with
  | EmptyString => None
  | String "-" (String _ _ as rest) =>
      (fun z => binary_normalize 53 1024 (- z) 0 true) <$> digits rest 0
  | _ => (fun z => binary_normalize 53 1024 z 0 false) <$> digits s 0
  end.

Definition clock (timestamp : json) : Conversion :=
  match timestamp with
  | JInt z =>
      if (0 <=? z) && (z <? 253402300800000) then Converted (pretty z +:+ " ms")
      else if Z.abs z <? 2 ^ 62 then Rejected
      else PlatformError
  | _ => Rejected
  end.

Definition runtime : Runtime := {|
  read_json_file path :=
    if String.eqb path "data/empty.json" then Ok [] else Raise FileNotFoundError;
  float_of_str := decimal;
  repr v := match v with JFloat _ => "<float>" | _ => "<container>" end;
  fromtimestamp_ms := clock
|}.

(** A file system in which every path names an empty file. *)
Definition empty_files : Runtime := {|
  read_json_file path := Ok [];
  float_of_str := decimal;
  repr v := match v with JFloat _ => "<float>" | _ => "<container>" end;
  fromtimestamp_ms := clock
|}.

End Sample.

(** ** Notions the statements are written in *)

(** The wrapped-identifier shape: a mapping holding a string under ["$oid"]. *)
Definition wrapped_identifier (v : json) : bool :=
  match v with
  | JDict d =>
      match Dict.get "$oid" d with
      | Some (JStr _) => true
      | _ => false
      end
  | _ => false
  end.

(** The required-field rule in the words of the specification: "receipts"
    requires every recognized field except the first, "users" requires the
    first only, any other entity requires none. *)
Definition missing_date_field_records (entity_name : string) (index : nat)
    (field : string) : list LogRecord :=
  if decide (entity_name = "receipts") then
    if decide (field = "lastLogin") then []
    else [(WARNING,
           "Missing date field '" +:+ field
             +:+ "' in receipts data at line number " +:+ pretty index)]
  else if decide (entity_name = "users") then
    if decide (field = "lastLogin") then
      [(WARNING,
        "Missing date field '" +:+ field
          +:+ "' in users data at line number " +:+ pretty index)]
    else []
  else [].

(** What the words "the values whose frequency exceeds one, in first-seen
    order" denote.  Values are told apart the way a [dict] key is. *)
Definition frequency (v : json) (l : list json) : nat :=
  length (filter (fun w => hash_key w = hash_key v) l).

Fixpoint first_seen (l : list json) : list json :=
  match l with
  | [] => []
  | v :: rest => v :: filter (fun w => hash_key w ≠ hash_key v) (first_seen rest)
  end.

Definition repeated (l : list json) : list json :=
  filter (fun v => (1 < frequency v l)%nat) (first_seen l).

(** The value an element holds under ["$oid"], when it is a mapping that has
    the key. *)
Definition oid_of (item : json) : option json :=
  match item with
  | JDict d => Dict.get "$oid" d
  | _ => None
  end.

(** A mapping with the key ["$oid"]. *)
Definition has_oid (item : json) : Prop := is_Some (oid_of item).

(** A mapping whose ["$oid"] is hashable: a string, a number, a boolean or
    [None]. *)
Definition has_hashable_oid (item : json) : Prop :=
  ∃ oid, oid_of item = Some oid ∧ is_Some (hash_key oid).

Definition tally (l : list json) : list (json * nat) :=
  (fun w => (w, frequency w l)) <$> first_seen l.

(** A number below zero. *)
Definition negative_number (v : json) : Prop :=
  is_number v = true ∧ lt_zero v = Ok true.

Definition all_negative (d : dict) : Prop := Forall (fun kv => negative_number kv.2) d.

(** Paths as the scanner writes them: [prefix.key], or [key] alone at the top,
    and [prefix[i]]. *)
Definition dotted (path key : string) : string :=
  match path with
  | EmptyString => key
  | _ => path +:+ "." +:+ key
  end.

Definition indexed (path : string) (index : nat) : string :=
  path +:+ "[" +:+ pretty index +:+ "]".

Definition is_container (v : json) : bool :=
  match v with
  | JDict _ | JList _ => true
  | _ => false
  end.

(** [mapping_leaf data prefix path value]: inside [data], walked from the
    path [prefix], the scalar [value] is stored under a key of a mapping, at
    [path].  Scalars that are elements of a list are not among them. *)
Inductive mapping_leaf : json → string → string → json → Prop :=
| leaf_entry d prefix key value :
    (key, value) ∈ d →
    is_container value = false →
    mapping_leaf (JDict d) prefix (dotted prefix key) value
| leaf_below_key d prefix key sub path value :
    (key, sub) ∈ d →
    mapping_leaf sub (dotted prefix key) path value →
    mapping_leaf (JDict d) prefix path value
| leaf_below_index l prefix index sub path value :
    l !! index = Some sub →
    mapping_leaf sub (indexed prefix index) path value →
    mapping_leaf (JList l) prefix path value.

(** One turn of the scanner's loop over the entries of a mapping, and one
    over the elements of a list. *)
Definition dict_step `{Runtime} (path : string) (negative_values : dict)
    (entry : string * json) : dict :=
  let new_path := dotted path entry.1 in
  if is_container entry.2 then
    Dict.update negative_values (check_negative_values entry.2 new_path)
  else
    match negative_leaf entry.2 with
    | Some num_value => Dict.set new_path num_value negative_values
    | None => negative_values
    end.

Definition list_step `{Runtime} (path : string) (negative_values : dict)
    (entry : nat * json) : dict :=
  Dict.update negative_values (check_negative_values entry.2 (indexed path entry.1)).

(** What a method reports on a checker, taken from a run on an empty log. *)
Definition findings {A} (m : M A) (c : Checker) : Res A * list LogRecord :=
  let '(r, st) := m (mkState c []) in (r, log st).

(** [m] leaves the checker as it found it, appends its findings to the log
    whatever the log held before, and its result and findings depend on the
    checker only. *)
Definition only_logs {A} (m : M A) : Prop :=
  ∀ st, m st = ((findings m (self st)).1, emit st (findings m (self st)).2).

(** [m] returns normally on the checker [c]. *)
Definition succeeds (m : M unit) (c : Checker) : Prop := (findings m c).1 = Ok tt.

(** No recognized timestamp of the record makes the platform's [localtime]
    fail. *)
Definition converts `{Runtime} (item : dict) : Prop :=
  ∀ field d timestamp,
    Dict.get field item = Some (JDict d) →
    Dict.get "$date" d = Some timestamp →
    fromtimestamp_ms timestamp ≠ PlatformError.

(** The [_id] of the record, when it has one, is a mapping with a hashable
    ["$oid"]. *)
Definition id_subscriptable (item : dict) : Prop :=
  ∀ id, Dict.get "_id" item = Some id → has_hashable_oid id.

(** [c in s] for a character. *)
Fixpoint occurs (c : ascii) (s : string) : bool :=
  match s with
  | EmptyString => false
  | String a rest => Ascii.eqb a c || occurs c rest
  end.

(** What a date field holds under ["$date"], when it is a mapping that has
    the key. *)
Definition timestamp_of (value : json) : option json :=
  match value with
  | JDict d => Dict.get "$date" d
  | _ => None
  end.

(** The key names a quantity: lower-cased, it contains one of the four
    indicator words. *)
Definition names_a_quantity (key : string) : Prop :=
  ∃ indicator pre post,
    indicator ∈ ["count"; "amount"; "price"; "quantity"] ∧
    lower key = pre +:+ indicator +:+ post.

#[global] Instance Level_eq_dec : EqDecision Level.
Proof. solve_decision. Defined.

(** [isinstance(v, str)]. *)
Definition is_str (v : json) : bool :=
  match v with
  | JStr _ => true
  | _ => false
  end.

(** How often a line occurs in a log. *)
Definition occurrences (line : LogRecord) (records : list LogRecord) : nat :=
  length (filter (fun r => r = line) records).

(** The message of the line starts with a capital M. *)
Definition starts_with_M (line : LogRecord) : bool :=
  match line.2 with
  | String "M" _ => true
  | _ => false
  end.

(** The warning about a users record without [lastLogin]. *)
Definition missing_last_login (index : nat) : LogRecord :=
  (WARNING,
   "Missing date field 'lastLogin' in users data at line number " +:+ pretty index).

(** [m], run on [c], and [m'], run on [c'], return the same result and write
    the same lines, whatever the log held before; neither changes its
    checker. *)
Definition agree {A} (c c' : Checker) (m m' : M A) : Prop :=
  ∀ written, ∃ r found,
    m (mkState c written) = (r, mkState c found) ∧
    m' (mkState c' written) = (r, mkState c' found).

(** [m] returns normally or raises [OSError], nothing else. *)
Definition at_most_OSError (m : M unit) : Prop :=
  ∀ st, (m st).1 = Ok tt ∨ (m st).1 = Raise OSError.

(** * Properties *)

(** ** Basic facts about the monad and its loops *)

Lemma emit_nil (st : State) : emit st [] = st.
Proof. destruct st as [c l]. unfold emit. simpl. by rewrite app_nil_r. Qed.

Lemma emit_emit (st : State) (l1 l2 : list LogRecord) :
  emit (emit st l1) l2 = emit st (l1 ++ l2).
Proof. unfold emit. simpl. by rewrite app_assoc. Qed.

Lemma for_each_ext {A} (xs : list A) (f g : A → M unit) :
  (∀ x, f x = g x) → for_each xs f = for_each xs g.
Proof. intros Hfg. induction xs as [|x xs IH]; simpl; [done |]. by rewrite Hfg, IH. Qed.

Lemma for_each_logger {A} (xs : list A) (level : Level) (msg : A → string) (st : State) :
  for_each xs (fun x => logger level (msg x)) st
    = (Ok tt, emit st ((fun x => (level, msg x)) <$> xs)).
Proof.
  revert st. induction xs as [|x xs IH]; intros st; simpl.
  - by rewrite emit_nil.
  - unfold mbind, M_bind, logger at 1. by rewrite IH, emit_emit.
Qed.

Lemma for_each_emits {A} (xs : list A) (body : A → M unit)
    (records : A → list LogRecord) (st : State) :
  Forall (fun x => ∀ st', body x st' = (Ok tt, emit st' (records x))) xs →
  for_each xs body st = (Ok tt, emit st (concat (records <$> xs))).
Proof.
  intros Hxs. revert st.
  induction Hxs as [|x xs Hx _ IH]; intros st; simpl.
  - by rewrite emit_nil.
  - unfold mbind, M_bind. by rewrite Hx, IH, emit_emit.
Qed.

(** ** Checks only read the checker and append to the log *)

Section OnlyLogs.

Context {A B : Type}.

Lemma only_logs_ret (a : A) : only_logs (mret a).
Proof. intros st. cbv [findings mret M_ret]. simpl. by rewrite emit_nil. Qed.

Lemma only_logs_raise (e : Exn) : only_logs (@raise A e).
Proof. intros st. cbv [findings raise]. simpl. by rewrite emit_nil. Qed.

Lemma only_logs_lift (r : Res A) : only_logs (lift r).
Proof. intros st. cbv [findings lift]. simpl. by rewrite emit_nil. Qed.

Lemma only_logs_bind (m : M A) (f : A → M B) :
  only_logs m → (∀ a, only_logs (f a)) → only_logs (m ≫= f).
Proof.
  intros Hm Hf st. unfold findings, mbind, M_bind.
  rewrite (Hm st), (Hm (mkState (self st) [])). simpl.
  destruct (findings m (self st)) as [[a | e] l]; simpl; [| done].
  rewrite (Hf a (emit st l)), (Hf a (emit (mkState (self st) []) l)). simpl.
  destruct (findings (f a) (self st)) as [r l']. simpl.
  by rewrite emit_emit.
Qed.

End OnlyLogs.

Lemma only_logs_get_self : only_logs get_self.
Proof. intros st. cbv [findings get_self]. simpl. by rewrite emit_nil. Qed.

Lemma only_logs_logger (level : Level) (msg : string) : only_logs (logger level msg).
Proof. intros st. reflexivity. Qed.

Lemma only_logs_for_each {A} (xs : list A) (body : A → M unit) :
  (∀ x, only_logs (body x)) → only_logs (for_each xs body).
Proof.
  intros Hbody. induction xs as [|x xs IH]; simpl.
  - apply only_logs_ret.
  - apply only_logs_bind; [apply Hbody | intros _; exact IH].
Qed.

Create HintDb only_logs.

#[export] Hint Resolve only_logs_ret only_logs_raise only_logs_lift only_logs_get_self
  only_logs_logger : only_logs.

(** Walks a method body: binds, loops and case distinctions. *)
Ltac only_logs_step :=
  first
    [ apply only_logs_for_each
    | apply only_logs_bind
    | progress auto with only_logs
    | match goal with
      | |- ∀ _, _ => intros ?
      | |- only_logs (match ?x with _ => _ end) => destruct x
      | |- only_logs (let '(_, _) := ?x in _) => destruct x
      end ].

Ltac only_logs := repeat only_logs_step.

Section ChecksOnlyLog.

Context `{Runtime}.

Lemma only_logs_check_negative_values_in_item item :
  only_logs (check_negative_values_in_item item).
Proof. unfold check_negative_values_in_item. only_logs. Qed.

Lemma only_logs_check_schema_consistency item index expected_keys :
  only_logs (check_schema_consistency item index expected_keys).
Proof. unfold check_schema_consistency. only_logs. Qed.

Lemma only_logs_check_date_field c item index field :
  only_logs (check_date_field c item index field).
Proof. unfold check_date_field. only_logs. Qed.

Lemma only_logs_check_date_format item index :
  only_logs (check_date_format item index).
Proof.
  unfold check_date_format. apply only_logs_bind; [apply only_logs_get_self |].
  intros c. apply only_logs_for_each. intros field.
  apply only_logs_check_date_field.
Qed.

Lemma only_logs_check_negative_numeric_fields key value index :
  only_logs (check_negative_numeric_fields key value index).
Proof. unfold check_negative_numeric_fields. only_logs. Qed.

Lemma only_logs_check_empty_list key value index :
  only_logs (check_empty_list key value index).
Proof. unfold check_empty_list. only_logs. Qed.

Lemma only_logs_check_id_type item index : only_logs (check_id_type item index).
Proof. unfold check_id_type. only_logs. Qed.

Lemma only_logs_check_field item index key value :
  only_logs (check_field item index key value).
Proof.
  unfold check_field. apply only_logs_bind; [apply only_logs_get_self |].
  intros c. destruct (branch_of value);
    auto using only_logs_check_date_format, only_logs_check_negative_numeric_fields,
      only_logs_check_empty_list, only_logs_logger, only_logs_ret.
Qed.

Lemma only_logs_check_field_types item index :
  only_logs (check_field_types item index).
Proof.
  unfold check_field_types. apply only_logs_bind.
  - apply only_logs_for_each. intros [key value]. apply only_logs_check_field.
  - intros _. apply only_logs_check_id_type.
Qed.

Lemma only_logs_check_item item index expected_keys :
  only_logs (check_item item index expected_keys).
Proof.
  unfold check_item.
  apply only_logs_bind; [apply only_logs_check_negative_values_in_item | intros _].
  apply only_logs_bind; [apply only_logs_check_schema_consistency | intros _].
  apply only_logs_check_field_types.
Qed.

Lemma only_logs_check_id_uniqueness expected_keys :
  only_logs (check_id_uniqueness expected_keys).
Proof. unfold check_id_uniqueness. only_logs. Qed.

Lemma only_logs_check_json_quality : only_logs check_json_quality.
Proof.
  unfold check_json_quality. apply only_logs_bind; [apply only_logs_get_self |].
  intros c. destruct (data c) as [[|first rest]|]; try apply only_logs_ret.
  apply only_logs_bind.
  - apply only_logs_for_each. intros [index item]. apply only_logs_check_item.
  - intros _. apply only_logs_bind; [apply only_logs_check_id_uniqueness |].
    intros _. apply only_logs_logger.
Qed.

(** C8.  [check_json_quality] leaves the checker, and with it the loaded
    collection and every record in it, exactly as it found it, so a second
    run meets the same data, ends the same way and appends the same
    findings to the log as the first. *)
Theorem check_json_quality_idempotent (st : State) :
  ∃ (outcome : Res unit) (found : list LogRecord),
    let once := mkState (self st) (log st ++ found) in
    let twice := mkState (self st) ((log st ++ found) ++ found) in
    check_json_quality st = (outcome, once) ∧
    check_json_quality once = (outcome, twice) ∧
    data (self once) = data (self st) ∧
    data (self twice) = data (self st).
Proof.
  exists (findings check_json_quality (self st)).1,
         (findings check_json_quality (self st)).2.
  simpl. split; [apply only_logs_check_json_quality |].
  split; [| done]. by rewrite only_logs_check_json_quality.
Qed.

End ChecksOnlyLog.

(** ** Nothing to check *)

(** C10.  Before [load_data] has run, [data] is [None]: [check_json_quality]
    returns at once, raising nothing and writing nothing, exactly as it does
    on an empty collection. *)
Theorem check_json_quality_unloaded `{Runtime} (path entity_name : string)
    (written : list LogRecord) :
  let unloaded := mkState (mkChecker path None entity_name) written in
  let empty := mkState (mkChecker path (Some []) entity_name) written in
  check_json_quality unloaded = (Ok tt, unloaded) ∧
  check_json_quality empty = (Ok tt, empty).
Proof. by split. Qed.

(** C7.  When the file decodes to no record at all, [load_data] stores the
    empty collection and reports it with one warning, raising nothing; the
    full check on the loaded checker then returns at once: no per-record
    check, no id-uniqueness check and no completion notice write to the
    log. *)
Theorem empty_collection_stops `{Runtime} (st : State) :
  read_json_file (file_path (self st)) = Ok [] →
  ∃ loaded : State,
    load_data st = (Ok tt, loaded) ∧
    data (self loaded) = Some [] ∧
    log loaded = log st ++ [(WARNING, "The file is empty")] ∧
    check_json_quality loaded = (Ok tt, loaded).
Proof.
  intros Hread. unfold load_data, mbind, M_bind, get_self; simpl.
  rewrite Hread; simpl. eexists; split; [reflexivity |]. by repeat split.
Qed.

Lemma empty_collection_stops_witness :
  let st := mkState (new_checker "data/empty.json" "empty") [] in
  @read_json_file Sample.runtime (file_path (self st)) = Ok [] ∧
  ∃ loaded : State,
    @load_data Sample.runtime st = (Ok tt, loaded) ∧
    data (self loaded) = Some [] ∧
    log loaded = log st ++ [(WARNING, "The file is empty")] ∧
    @check_json_quality Sample.runtime loaded = (Ok tt, loaded).
Proof.
  split; [reflexivity |].
  apply (@empty_collection_stops Sample.runtime). reflexivity.
Defined.

(** ** The identifier-shape check *)

(** C6.  On every record [check_id_type] returns normally and writes at most
    one line: nothing when the record has no [_id] field or when [_id] has the
    wrapped-identifier shape, and exactly one warning, naming the line index,
    when [_id] is present and deviates from the shape (not a mapping, a
    mapping without ["$oid"], or a non-string ["$oid"]). *)
Theorem check_id_type_one_warning (item : dict) (index : nat) (st : State) :
  ∃ records : list LogRecord,
    check_id_type item index st = (Ok tt, emit st records) ∧
    match Dict.get "_id" item with
    | None => records = []
    | Some id =>
        if wrapped_identifier id then records = []
        else ∃ what : string,
          records =
            [(WARNING, what +:+ entity (self st) +:+ " at line number " +:+ pretty index)]
    end.
Proof.
  unfold check_id_type, mbind, M_bind, get_self; simpl.
  destruct (Dict.get "_id" item) as [id|] eqn:Hid.
  - destruct id as [ | b | z | f | s | l | d ]; simpl;
      try (eexists; split; [reflexivity | by exists "Invalid _id type found in "]).
    destruct (Dict.get "$oid" d) as [oid|] eqn:Hoid.
    + destruct oid; simpl;
        try (eexists; split;
             [reflexivity | by exists "Invalid $oid type in _id in "]).
      exists []. by rewrite emit_nil.
    + eexists; split; [reflexivity | by exists "Invalid _id type found in "].
  - exists []. by rewrite emit_nil.
Qed.

(** ** Dispatch on the kind of a field *)

(** C9.  A boolean field goes to the negative-numeric-field branch of
    [check_field_types], not to the date, empty-list or null branch, and that
    branch writes nothing for it: neither [True] nor [False] is below zero. *)
Theorem check_field_bool `{Runtime} (item : dict) (index : nat) (key : string)
    (b : bool) (st : State) :
  branch_of (JBool b) = ToNumeric ∧
  check_field item index key (JBool b) st
    = check_negative_numeric_fields key (JBool b) index st ∧
  check_negative_numeric_fields key (JBool b) index st = (Ok tt, st).
Proof.
  split; [reflexivity | split; [reflexivity |]].
  unfold check_negative_numeric_fields, mbind, M_bind, get_self; simpl.
  by destruct (_ || _).
Qed.

(** ** Required date fields *)

Lemma eqb_decide (a b : string) : String.eqb a b = bool_decide (a = b).
Proof. apply eq_true_iff_eq. by rewrite String.eqb_eq, bool_decide_eq_true. Qed.

Lemma in_tail_date_fields (field : string) :
  field ∈ date_fields →
  bool_decide (field ∈ drop 1 date_fields) = negb (bool_decide (field = "lastLogin")).
Proof.
  unfold date_fields. intros Hfield.
  repeat (apply elem_of_cons in Hfield as [-> | Hfield]); try by vm_compute.
  by apply elem_of_nil in Hfield.
Qed.

Lemma in_head_date_fields (field : string) :
  bool_decide (field ∈ take 1 date_fields) = bool_decide (field = "lastLogin").
Proof. apply bool_decide_ext. simpl. apply list_elem_of_singleton. Qed.

Lemma check_date_field_absent `{Runtime} (c : Checker) (item : dict)
    (index : nat) (field : string) (st : State) :
  field ∈ date_fields →
  Dict.get field item = None →
  check_date_field c item index field st =
    (Ok tt, emit st (missing_date_field_records (entity c) index field)).
Proof.
  intros Hfield Habsent. unfold check_date_field, missing_date_field_records.
  rewrite Habsent.
  rewrite !eqb_decide, (in_tail_date_fields _ Hfield), in_head_date_fields.
  unfold bool_decide.
  repeat (case_decide; simplify_eq/=); rewrite ?emit_nil; try done.
  congruence.
Qed.

(** X19.  The whole loop on a record that has none of the recognized date
    fields: six warnings for "receipts", one for "users", nothing otherwise. *)
Lemma check_date_format_without_dates `{Runtime} (item : dict) (index : nat)
    (st : State) :
  Forall (fun field => Dict.get field item = None) date_fields →
  check_date_format item index st =
    (Ok tt,
     emit st
       (concat (missing_date_field_records (entity (self st)) index <$> date_fields))).
Proof.
  intros Habsent. unfold check_date_format, mbind, M_bind, get_self.
  apply for_each_emits.
  apply Forall_forall. intros field Hfield st'.
  apply check_date_field_absent; [done |].
  by eapply Forall_forall in Habsent.
Qed.

(** A timestamp the platform cannot convert is not among the exceptions
    [check_date_format] catches: the turn raises [OSError] and writes
    nothing. *)
Lemma check_date_field_platform_error `{Runtime} (c : Checker) (item d : dict)
    (index : nat) (field : string) (timestamp : json) (st : State) :
  Dict.get field item = Some (JDict d) →
  Dict.get "$date" d = Some timestamp →
  is_number timestamp = true →
  fromtimestamp_ms timestamp = PlatformError →
  check_date_field c item index field st = (Raise OSError, st).
Proof.
  intros Hfield Hdate Hnumber Hplatform. unfold check_date_field.
  by rewrite Hfield, Hdate, Hnumber, Hplatform.
Qed.



(** ** Duplicate identifiers *)

Section Counting.

Implicit Types (v w : json) (l : list json).

Lemma frequency_app v l1 l2 :
  frequency v (l1 ++ l2) = (frequency v l1 + frequency v l2)%nat.
Proof. unfold frequency. by rewrite filter_app, length_app. Qed.

Lemma frequency_singleton v w :
  frequency w [v] = if decide (hash_key v = hash_key w) then 1%nat else 0%nat.
Proof. unfold frequency. rewrite filter_cons, filter_nil. by case_decide. Qed.

Lemma frequency_absent v l :
  hash_key v ∉ hash_key <$> l → frequency v l = 0%nat.
Proof.
  unfold frequency. induction l as [|a l IH]; [done |].
  rewrite fmap_cons, not_elem_of_cons. intros [Hne Hnotin].
  rewrite filter_cons. case_decide; [congruence | auto].
Qed.

Lemma elem_of_first_seen_keys k l :
  k ∈ hash_key <$> first_seen l ↔ k ∈ hash_key <$> l.
Proof.
  induction l as [|a l IH]; [done |]. simpl.
  rewrite !elem_of_cons, <- IH, !list_elem_of_fmap.
  split.
  - intros [-> | (w & -> & [_ Hw]%list_elem_of_filter)]; [by left | right; eauto].
  - intros [-> | (w & -> & Hw)]; [by left |].
    destruct (decide (hash_key w = hash_key a)) as [Heq | Hne]; [by left |].
    right. exists w. split; [done |]. by apply list_elem_of_filter.
Qed.

Lemma NoDup_first_seen_keys l : NoDup (hash_key <$> first_seen l).
Proof.
  induction l as [|a l IH]; simpl; [constructor |].
  constructor.
  - rewrite list_elem_of_fmap. intros (w & Heq & [Hne _]%list_elem_of_filter).
    congruence.
  - eapply sublist_NoDup; [exact IH |].
    apply fmap_sublist, sublist_filter.
Qed.

Lemma first_seen_snoc v l :
  first_seen (l ++ [v]) =
    first_seen l ++ (if decide (hash_key v ∈ hash_key <$> l) then [] else [v]).
Proof.
  induction l as [|a l IH]; [done |].
  rewrite <- app_comm_cons. cbn [first_seen].
  rewrite IH, filter_app, fmap_cons, <- app_comm_cons. f_equal. f_equal.
  destruct (decide (hash_key v ∈ hash_key <$> l)) as [Hin | Hnotin].
  - rewrite filter_nil. rewrite decide_True; [done | by right].
  - rewrite filter_cons, filter_nil.
    destruct (decide (hash_key v = hash_key a)) as [Heq | Hne].
    + rewrite decide_False by (by intros ?).
      rewrite decide_True; [done | rewrite Heq; by left].
    + rewrite decide_True by done.
      rewrite decide_False; [done |].
      rewrite not_elem_of_cons. by split.
Qed.

(** One step of the counter on a table with pairwise distinct keys. *)
Lemma increment_tally v (g : json → nat) l :
  NoDup (hash_key <$> l) →
  increment v ((fun w => (w, g w)) <$> l) =
    ((fun w => (w, (g w + if decide (hash_key v = hash_key w) then 1 else 0)%nat)) <$> l)
    ++ (if decide (hash_key v ∈ hash_key <$> l) then [] else [(v, 1%nat)]).
Proof.
  induction l as [|a l IH]; intros Hnodup.
  - done.
  - rewrite fmap_cons in Hnodup. apply NoDup_cons in Hnodup as [Ha Hl].
    rewrite !fmap_cons. simpl. unfold same_key.
    destruct (decide (hash_key a = hash_key v)) as [Heq | Hne].
    + rewrite bool_decide_eq_true_2 by done.
      rewrite (decide_True (P := hash_key v = hash_key a)) by done.
      rewrite (decide_True (P := hash_key v ∈ _)) by (rewrite Heq; by left).
      rewrite app_nil_r, Nat.add_1_r. f_equal.
      apply list_fmap_ext. intros i w Hw.
      rewrite decide_False; [by rewrite Nat.add_0_r |].
      intros Hvw. apply Ha. rewrite Heq, Hvw.
      apply list_elem_of_fmap. exists w. split; [done |].
      by eapply list_elem_of_lookup_2.
    + rewrite bool_decide_eq_false_2 by done.
      rewrite (decide_False (P := hash_key v = hash_key a)) by congruence.
      rewrite Nat.add_0_r, (IH Hl). simpl. f_equal. f_equal.
      destruct (decide (hash_key v ∈ hash_key <$> l)) as [Hin | Hnotin].
      * rewrite decide_True; [done | by right].
      * rewrite decide_False; [done |].
        rewrite not_elem_of_cons. split; [congruence | done].
Qed.

Lemma increment_tally_snoc v l : increment v (tally l) = tally (l ++ [v]).
Proof.
  unfold tally. rewrite increment_tally by apply NoDup_first_seen_keys.
  rewrite first_seen_snoc, fmap_app. f_equal.
  - apply list_fmap_ext. intros i w Hw.
    by rewrite frequency_app, frequency_singleton.
  - destruct (decide (hash_key v ∈ hash_key <$> l)) as [Hin | Hnotin].
    + rewrite decide_True; [done | by apply elem_of_first_seen_keys].
    + rewrite decide_False by (by rewrite elem_of_first_seen_keys).
      simpl. rewrite frequency_app, frequency_singleton, frequency_absent by done.
      by rewrite decide_True.
Qed.

Lemma foldl_increment l : foldl (fun count v => increment v count) [] l = tally l.
Proof.
  induction l as [|v l IH] using rev_ind; [done |].
  by rewrite foldl_app, IH; simpl; rewrite increment_tally_snoc.
Qed.

Lemma Counter_update_hashable count l :
  Forall (fun v => is_Some (hash_key v)) l →
  Counter_update count l = Ok (foldl (fun count v => increment v count) count l).
Proof.
  intros Hl. revert count.
  induction Hl as [|v l [k Hk] _ IH]; intros count; simpl; [done |].
  by rewrite Hk, IH.
Qed.

Lemma repeated_of_tally (g : json → nat) l :
  (filter (fun '(oid, freq) => (1 < freq)%nat) ((fun w => (w, g w)) <$> l)).*1
    = filter (fun w => (1 < g w)%nat) l.
Proof.
  induction l as [|a l IH]; [done |].
  rewrite fmap_cons, !filter_cons. simpl.
  destruct (decide (1 < g a)%nat); [rewrite fmap_cons |]; by rewrite IH.
Qed.

Lemma frequency_le_1 v l : NoDup (hash_key <$> l) → (frequency v l ≤ 1)%nat.
Proof.
  induction l as [|a l IH]; [unfold frequency; simpl; lia |].
  rewrite fmap_cons. intros [Ha Hl]%NoDup_cons.
  change (a :: l) with ([a] ++ l).
  rewrite frequency_app, frequency_singleton.
  case_decide as Heq; [| by apply IH].
  rewrite frequency_absent; [done | by rewrite <- Heq].
Qed.

Lemma comprehension_oid data :
  Forall has_oid data →
  comprehension (fun item => getitem item "$oid") data = Ok (omap oid_of data).
Proof.
  induction 1 as [|item data [oid Hoid] _ IH]; [done |].
  simpl. rewrite IH, Hoid.
  destruct item; try discriminate. simpl in Hoid |- *. by rewrite Hoid.
Qed.

End Counting.

Lemma hashable_oids (data : list json) :
  Forall has_hashable_oid data →
  Forall has_oid data ∧ Forall (fun v => is_Some (hash_key v)) (omap oid_of data).
Proof.
  intros Hdata. split.
  - eapply Forall_impl; [exact Hdata |]. intros item (oid & Hoid & _). by exists oid.
  - induction Hdata as [|item data (oid & Hoid & Hk) _ IH]; [constructor |].
    simpl. rewrite Hoid. by constructor.
Qed.

Lemma find_duplicates_hashable (data : list json) :
  Forall has_hashable_oid data →
  find_duplicates data = Ok (repeated (omap oid_of data)).
Proof.
  intros [Hoids Hhash]%hashable_oids.
  unfold find_duplicates, Counter, mbind, Res_bind, mret, Res_ret.
  rewrite (comprehension_oid _ Hoids), (Counter_update_hashable _ _ Hhash).
  rewrite foldl_increment. unfold tally. by rewrite repeated_of_tally.
Qed.

Lemma repeated_nil (l : list json) : NoDup (hash_key <$> l) → repeated l = [].
Proof.
  intros Hnodup. unfold repeated.
  induction (first_seen l) as [|v l' IH]; [done |].
  rewrite filter_cons, decide_False; [exact IH |].
  pose proof (frequency_le_1 v _ Hnodup). lia.
Qed.

(** C3, as amended.  On a list of mappings that each hold a hashable value
    (a string, a number, a boolean or [None]) under ["$oid"],
    [find_duplicates] returns exactly the inner values that occur more than
    once, each once, in the order in which they are first seen; when no value
    is repeated it returns the empty list. *)
Theorem find_duplicates_repeated (data : list json) :
  Forall has_hashable_oid data →
  find_duplicates data = Ok (repeated (omap oid_of data)) ∧
  (NoDup (hash_key <$> omap oid_of data) → find_duplicates data = Ok []).
Proof.
  intros Hdata. split; [by apply find_duplicates_hashable |].
  intros Hnodup. by rewrite find_duplicates_hashable, repeated_nil.
Qed.

Lemma find_duplicates_repeated_witness :
  let data :=
    [ JDict [("$oid", JStr "1")]; JDict [("$oid", JStr "2")]; JDict [("$oid", JStr "1")] ] in
  Forall has_hashable_oid data ∧
  find_duplicates data = Ok (repeated (omap oid_of data)) ∧
  repeated (omap oid_of data) = [JStr "1"].
Proof.
  assert (Hdata : Forall has_hashable_oid
            [ JDict [("$oid", JStr "1")]; JDict [("$oid", JStr "2")];
              JDict [("$oid", JStr "1")] ]).
  { repeat constructor; eexists; (split; [reflexivity | by eexists]). }
  split; [exact Hdata |].
  split; [exact (proj1 (find_duplicates_repeated _ Hdata)) | reflexivity].
Defined.

(** C3, as stated, fails: a mapping may hold a list under ["$oid"], and then
    [Counter] raises [TypeError] instead of returning anything. *)
Lemma find_duplicates_unhashable :
  Forall has_oid [JDict [("$oid", JList [])]] ∧
  find_duplicates [JDict [("$oid", JList [])]] = Raise TypeError.
Proof. split; [| reflexivity]. repeat constructor. by eexists. Qed.

(** ** The negative-value scanner *)

Lemma json_nested_ind (P : json → Prop) :
  P JNull →
  (∀ b, P (JBool b)) →
  (∀ z, P (JInt z)) →
  (∀ f, P (JFloat f)) →
  (∀ s, P (JStr s)) →
  (∀ l, Forall P l → P (JList l)) →
  (∀ d, Forall (fun kv => P kv.2) d → P (JDict d)) →
  ∀ v, P v.
Proof.
  intros HNull HBool HInt HFloat HStr HList HDict. fix IH 1.
  intros [ | b | z | f | s | l | d];
    [exact HNull | apply HBool | apply HInt | apply HFloat | apply HStr | | ].
  - apply HList. induction l as [|x l IHl]; constructor; [apply IH | exact IHl].
  - apply HDict. induction d as [|[k x] d IHd]; constructor; [apply IH | exact IHd].
Qed.

Lemma negative_leaf_negative `{Runtime} value n :
  negative_leaf value = Some n → negative_number n.
Proof.
  unfold negative_leaf, negative_number. intros Hleaf.
  repeat case_match; simplify_eq; try done;
    match goal with
    | Hb : _ && _ = true |- _ => apply andb_true_iff in Hb as [? ?]
    end; simplify_eq; split; try done; by repeat case_match; simplify_eq.
Qed.

Section ScannerLeaves.

Context `{Runtime}.

Lemma check_negative_values_dict (d : dict) (path : string) :
  check_negative_values (JDict d) path = fold_left (dict_step path) d [].
Proof.
  cbn [check_negative_values]. generalize (@nil (string * json)) as acc.
  induction d as [|[key value] d IH]; intros acc; [done |].
  cbn [fold_left]. rewrite <- IH. unfold dict_step. by destruct value.
Qed.

Lemma check_negative_values_list (l : list json) (path : string) :
  check_negative_values (JList l) path = fold_left (list_step path) (enumerate l) [].
Proof.
  cbn [check_negative_values]. unfold enumerate.
  generalize (@nil (string * json)) as acc.
  change (fun (i : nat) (x : json) => (i, x)) with (fun (i : nat) (x : json) => ((0 + i)%nat, x)).
  generalize 0%nat as index.
  induction l as [|item l IH]; intros index acc; [done |].
  cbn [imap fold_left]. rewrite IH. f_equal.
  - apply imap_ext. intros i x _. simpl. f_equal. lia.
  - unfold list_step, indexed. cbn [fst snd]. by rewrite Nat.add_0_r.
Qed.

Lemma elem_of_set (p key : string) (n value : json) (d : dict) :
  (p, n) ∈ Dict.set key value d → (p, n) = (key, value) ∨ (p, n) ∈ d.
Proof.
  induction d as [|[k v] d IH]; simpl.
  - intros ->%list_elem_of_singleton. by left.
  - destruct (String.eqb k key) eqn:Hk.
    + apply String.eqb_eq in Hk as ->.
      intros [-> | Hin]%elem_of_cons; [by left | right; by right].
    + intros [-> | Hin]%elem_of_cons; [right; by left |].
      destruct (IH Hin) as [-> | Hd]; [by left | right; by right].
Qed.

Lemma elem_of_update (p : string) (n : json) (d other : dict) :
  (p, n) ∈ Dict.update d other → (p, n) ∈ d ∨ (p, n) ∈ other.
Proof.
  unfold Dict.update. revert d.
  induction other as [|[k v] other IH]; intros d; simpl; [by left |].
  intros [[Hset | Hd]%elem_of_set | Hother]%IH.
  - right. rewrite Hset. by left.
  - by left.
  - right. by right.
Qed.

Lemma key_of_set (p key : string) (value : json) (d : dict) :
  p ∈ (Dict.set key value d).*1 ↔ p = key ∨ p ∈ d.*1.
Proof.
  induction d as [|[k v] d IH]; simpl.
  - rewrite list_elem_of_singleton. split; [by left | by intros [-> | ?%elem_of_nil]].
  - destruct (String.eqb k key) eqn:Hk.
    + apply String.eqb_eq in Hk as ->. simpl. rewrite !elem_of_cons. tauto.
    + simpl. rewrite !elem_of_cons, IH. tauto.
Qed.

Lemma key_of_update (p : string) (d other : dict) :
  p ∈ (Dict.update d other).*1 ↔ p ∈ d.*1 ∨ p ∈ other.*1.
Proof.
  unfold Dict.update. revert d.
  induction other as [|[k v] other IH]; intros d; simpl.
  - split; [by left | by intros [? | ?%elem_of_nil]].
  - rewrite IH, key_of_set, elem_of_cons. tauto.
Qed.

Lemma key_kept_by_dict_step (p path : string) (acc : dict) (entry : string * json) :
  p ∈ acc.*1 → p ∈ (dict_step path acc entry).*1.
Proof.
  intros Hp. unfold dict_step. destruct (is_container entry.2).
  - apply key_of_update. by left.
  - destruct (negative_leaf entry.2); [| done]. apply key_of_set. by right.
Qed.

Lemma key_kept_by_dict_loop (p path : string) (d acc : dict) :
  p ∈ acc.*1 → p ∈ (fold_left (dict_step path) d acc).*1.
Proof.
  revert acc. induction d as [|entry d IH]; intros acc Hp; [done |].
  simpl. by apply IH, key_kept_by_dict_step.
Qed.

Lemma key_kept_by_list_loop (p path : string) (l : list (nat * json)) (acc : dict) :
  p ∈ acc.*1 → p ∈ (fold_left (list_step path) l acc).*1.
Proof.
  revert acc. induction l as [|entry l IH]; intros acc Hp; [done |].
  simpl. apply IH. unfold list_step. apply key_of_update. by left.
Qed.

Lemma key_added_by_dict_loop (p path : string) (d acc : dict) (entry : string * json) :
  entry ∈ d →
  (∀ acc', p ∈ (dict_step path acc' entry).*1) →
  p ∈ (fold_left (dict_step path) d acc).*1.
Proof.
  intros Hentry Hstep. revert acc.
  induction d as [|e d IH]; intros acc; [by apply elem_of_nil in Hentry |].
  apply elem_of_cons in Hentry as [<- | Hentry]; simpl.
  - apply key_kept_by_dict_loop, Hstep.
  - by apply IH.
Qed.

Lemma key_added_by_list_loop (p path : string) (l : list (nat * json)) (acc : dict)
    (entry : nat * json) :
  entry ∈ l →
  (∀ acc', p ∈ (list_step path acc' entry).*1) →
  p ∈ (fold_left (list_step path) l acc).*1.
Proof.
  intros Hentry Hstep. revert acc.
  induction l as [|e l IH]; intros acc; [by apply elem_of_nil in Hentry |].
  apply elem_of_cons in Hentry as [<- | Hentry]; simpl.
  - apply key_kept_by_list_loop, Hstep.
  - by apply IH.
Qed.

Lemma mapping_leaf_container data prefix path value :
  mapping_leaf data prefix path value → is_container data = true.
Proof. by destruct 1. Qed.

(** Every negative number stored under a key of a mapping, at any depth, has
    its path among the keys of the scanner's result. *)
Lemma mapping_leaf_is_scanned data prefix path value n :
  mapping_leaf data prefix path value →
  negative_leaf value = Some n →
  path ∈ (check_negative_values data prefix).*1.
Proof.
  intros Hleaf Hn.
  induction Hleaf as
    [ d prefix key value Hentry Hscalar
    | d prefix key sub path value Hentry Hsub IH
    | l prefix index sub path value Hsub Hbelow IH ].
  - rewrite check_negative_values_dict.
    eapply key_added_by_dict_loop; [exact Hentry |].
    intros acc. unfold dict_step. cbn [fst snd]. rewrite Hscalar, Hn.
    apply key_of_set. by left.
  - rewrite check_negative_values_dict.
    eapply key_added_by_dict_loop; [exact Hentry |].
    intros acc. unfold dict_step. cbn [fst snd].
    rewrite (mapping_leaf_container _ _ _ _ Hsub).
    apply key_of_update. right. by apply IH.
  - rewrite check_negative_values_list.
    eapply (key_added_by_list_loop _ _ _ _ (index, sub)).
    + unfold enumerate. apply elem_of_lookup_imap. by exists index, sub.
    + intros acc. unfold list_step. cbn [fst snd].
      apply key_of_update. right. by apply IH.
Qed.

(** Every entry of the scanner's result is the negative number of such a
    leaf. *)
Lemma scanned_is_mapping_leaf data :
  ∀ prefix path n,
    (path, n) ∈ check_negative_values data prefix →
    ∃ value, mapping_leaf data prefix path value ∧ negative_leaf value = Some n.
Proof.
  induction data as [ | b | z | f | s | l IHl | d IHd ] using json_nested_ind;
    intros prefix path n; try (by intros ?%elem_of_nil).
  - rewrite check_negative_values_list.
    assert (Hloop : ∀ (entries : list (nat * json)) acc,
      (∀ entry, entry ∈ entries → l !! entry.1 = Some entry.2) →
      (path, n) ∈ fold_left (list_step prefix) entries acc →
      (path, n) ∈ acc ∨
      ∃ value, mapping_leaf (JList l) prefix path value ∧ negative_leaf value = Some n).
    { induction entries as [|[index item] entries IH]; intros acc Hin; [by left |].
      simpl. intros Hfound.
      apply IH in Hfound; [| intros entry Hentry; apply Hin; by right].
      destruct Hfound as [Hstep | Hdone]; [| by right].
      unfold list_step in Hstep. cbn [fst snd] in Hstep.
      apply elem_of_update in Hstep as [Hacc | Hnew]; [by left | right].
      assert (Hitem : l !! index = Some item) by (apply (Hin (index, item)); by left).
      eapply Forall_forall in IHl; [| by eapply list_elem_of_lookup_2].
      destruct (IHl _ _ _ Hnew) as (value & Hleaf & Hvalue).
      exists value. split; [by eapply leaf_below_index | done]. }
    intros Hfound. apply Hloop in Hfound as [?%elem_of_nil | Hfound]; [done | done |].
    intros [index item] (i & x & [= -> ->] & Hx)%elem_of_lookup_imap. done.
  - rewrite check_negative_values_dict.
    assert (Hloop : ∀ (entries : dict) acc,
      (∀ entry, entry ∈ entries → entry ∈ d) →
      (path, n) ∈ fold_left (dict_step prefix) entries acc →
      (path, n) ∈ acc ∨
      ∃ value, mapping_leaf (JDict d) prefix path value ∧ negative_leaf value = Some n).
    { induction entries as [|[key value] entries IH]; intros acc Hin; [by left |].
      simpl. intros Hfound.
      apply IH in Hfound; [| intros entry Hentry; apply Hin; by right].
      destruct Hfound as [Hstep | Hdone]; [| by right].
      assert (Hentry : (key, value) ∈ d) by (apply Hin; by left).
      unfold dict_step in Hstep. cbn [fst snd] in Hstep.
      destruct (is_container value) eqn:Hkind.
      - apply elem_of_update in Hstep as [Hacc | Hnew]; [by left | right].
        eapply Forall_forall in IHd; [| exact Hentry].
        destruct (IHd _ _ _ Hnew) as (leaf & Hleaf & Hvalue).
        exists leaf. split; [by eapply leaf_below_key | done].
      - destruct (negative_leaf value) as [num_value|] eqn:Hvalue; [| by left].
        apply elem_of_set in Hstep as [[= -> ->] | Hacc]; [right | by left].
        exists value. split; [by apply leaf_entry | done]. }
    intros Hfound. by apply Hloop in Hfound as [?%elem_of_nil | Hfound].
Qed.

End ScannerLeaves.

(** X16.  Whatever the scanner returns is a number below zero: every value of
    the result is an int, a float or a bool that compares below zero, never
    the string it was read from. *)
Lemma check_negative_values_all_negative `{Runtime} (data : json) (path : string) :
  all_negative (check_negative_values data path).
Proof.
  apply Forall_forall. intros [p n] Hin.
  destruct (scanned_is_mapping_leaf _ _ _ _ Hin) as (value & _ & Hvalue).
  by eapply negative_leaf_negative.
Qed.

(** The examples of the scanner's contract. *)
Example scan_flat `{Runtime} :
  check_negative_values (JDict [("value", JInt (-5))]) "" = [("value", JInt (-5))] ∧
  check_negative_values (JDict [("value", JInt 10)]) "" = [].
Proof. by split. Qed.

Example scan_nested `{Runtime} :
  check_negative_values (JDict [("a", JDict [("b", JInt (-3))])]) ""
    = [("a.b", JInt (-3))] ∧
  check_negative_values (JDict [("list", JList [JDict [("x", JInt (-1))]])]) ""
    = [("list[0].x", JInt (-1))].
Proof. by split. Qed.

(** A string leaf is read as a number first; one that is no number is
    skipped. *)
Example scan_strings :
  @check_negative_values Sample.runtime
    (JDict [("price", JStr "-12"); ("note", JStr "n/a"); ("count", JStr "3")]) ""
    = [("price", JFloat (S754_finite true 6755399441055744 (-49)))].
Proof. reflexivity. Qed.

(** C5 at its failing inputs.  The scanner looks at leaves only while it walks
    the entries of a mapping: a negative number that is itself an element of a
    list, or the whole input, is not reported.  This holds on every runtime. *)
Theorem scan_misses_list_elements `{Runtime} :
  check_negative_values (JDict [("a", JList [JInt (-1)])]) "" = [] ∧
  check_negative_values (JList [JInt (-1); JFloat (S754_infinity true)]) "items" = [] ∧
  check_negative_values (JInt (-5)) "" = [].
Proof. by repeat split. Qed.

Lemma set_not_nil key value d : Dict.set key value d ≠ [].
Proof. destruct d as [|[k v] d]; simpl; [done |]. by destruct (String.eqb k key). Qed.

Lemma update_nil (d other : dict) : Dict.update d other = [] ↔ d = [] ∧ other = [].
Proof.
  unfold Dict.update. split; [| by intros [-> ->]].
  assert (Hkeep : ∀ o acc, acc ≠ [] →
            fold_left (fun acc kv => Dict.set kv.1 kv.2 acc) o acc ≠ []).
  { induction o as [|kv o IH]; intros acc Hacc; [done |].
    simpl. apply IH, set_not_nil. }
  destruct other as [|kv other]; [done |].
  simpl. intros Hnil. by apply Hkeep in Hnil; [| apply set_not_nil].
Qed.

(** The two scans of [check_negative_values_in_item], and the lines it writes
    from their merge: the success line exactly when neither scan found
    anything, the warning followed by one line per finding otherwise. *)
Lemma check_negative_values_in_item_log `{Runtime} (item : dict) (st : State) :
  let whole := check_negative_values (JDict item) "" in
  let prefixed := check_negative_values (JDict item) "rewardsReceiptItemList" in
  ∃ records : list LogRecord,
    check_negative_values_in_item item st = (Ok tt, emit st records) ∧
    (whole = [] ∧ prefixed = [] →
       records = [(INFO, "No negative values found in " +:+ entity (self st) +:+ ".")]) ∧
    (¬ (whole = [] ∧ prefixed = []) →
       records =
         (WARNING, "Negative values found:") ::
         ((fun '(key, value) => (INFO, key +:+ ": " +:+ str value))
            <$> Dict.update whole prefixed)).
Proof.
  intros whole prefixed. unfold check_negative_values_in_item, mbind, M_bind, get_self.
  fold whole prefixed. pose proof (update_nil whole prefixed) as Hnil.
  destruct (Dict.update whole prefixed) as [|kv merged] eqn:Hmerged.
  - eexists. split; [reflexivity |]. split; [done |]. intros Hne. destruct Hne. by apply Hnil.
  - unfold logger at 1.
    rewrite (for_each_ext _ _ (fun kv => logger INFO (kv.1 +:+ ": " +:+ str kv.2)))
      by (by intros [key value]).
    rewrite for_each_logger, emit_emit. eexists. split; [reflexivity |].
    split; [intros Hboth; apply Hnil in Hboth; discriminate |].
    intros _. cbn [app]. f_equal. apply list_fmap_ext. by intros i [key value] _.
Qed.

(** C2 at its failing input.  The second scan of [check_negative_values_in_item]
    walks the whole record again under the path prefix
    ["rewardsReceiptItemList"]; it is not restricted to what the record holds
    under that key.  A record without the key has its one negative value
    reported twice, once under a path that does not exist in it. *)
Theorem second_scan_covers_whole_record `{Runtime} (c : Checker)
    (written : list LogRecord) :
  let item : dict := [("value", JInt (-5))] in
  Dict.get "rewardsReceiptItemList" item = None ∧
  check_negative_values (JDict item) "rewardsReceiptItemList"
    = [("rewardsReceiptItemList.value", JInt (-5))] ∧
  check_negative_values_in_item item (mkState c written) =
    (Ok tt,
     mkState c
       (written ++
        [ (WARNING, "Negative values found:");
          (INFO, "value: -5");
          (INFO, "rewardsReceiptItemList.value: -5") ])).
Proof.
  repeat split.
  rewrite only_logs_check_negative_values_in_item. by vm_compute.
Qed.

(** ** The whole run *)

Lemma findings_bind {A B} (m : M A) (f : A → M B) (c : Checker) :
  only_logs m → (∀ a, only_logs (f a)) →
  findings (m ≫= f) c =
    match findings m c with
    | (Ok a, l) => ((findings (f a) c).1, l ++ (findings (f a) c).2)
    | (Raise e, l) => (Raise e, l)
    end.
Proof.
  intros Hm Hf. unfold findings at 1. unfold mbind, M_bind.
  rewrite (Hm (mkState c [])). simpl.
  destruct (findings m c) as [[a | e] l]; simpl; [| done].
  by rewrite (Hf a (emit (mkState c []) l)).
Qed.

Lemma succeeds_ret (c : Checker) : succeeds (mret tt) c.
Proof. done. Qed.

Lemma succeeds_logger (level : Level) (msg : string) (c : Checker) :
  succeeds (logger level msg) c.
Proof. done. Qed.

Lemma succeeds_seq (m k : M unit) (c : Checker) :
  only_logs m → only_logs k → succeeds m c → succeeds k c → succeeds (m ;; k) c.
Proof.
  unfold succeeds. intros Hm Hk Hmc Hkc. rewrite findings_bind by done.
  destruct (findings m c) as [[[] | e] l]; simpl in *; [done | discriminate].
Qed.

Lemma succeeds_for_each {A} (xs : list A) (body : A → M unit) (c : Checker) :
  (∀ x, only_logs (body x)) →
  Forall (fun x => succeeds (body x) c) xs →
  succeeds (for_each xs body) c.
Proof.
  intros Hbody. induction 1 as [|x xs Hx _ IH]; simpl; [done |].
  apply succeeds_seq; auto using only_logs_for_each.
Qed.

Lemma succeeds_with_self (f : Checker → M unit) (c : Checker) :
  (∀ c', only_logs (f c')) → succeeds (f c) c → succeeds (get_self ≫= f) c.
Proof.
  unfold succeeds. intros Hf Hc.
  by rewrite findings_bind by auto using only_logs_get_self.
Qed.

Section Completion.

Context `{Runtime}.

Lemma succeeds_check_negative_values_in_item item c :
  succeeds (check_negative_values_in_item item) c.
Proof.
  unfold check_negative_values_in_item.
  apply succeeds_with_self; [intros c'; only_logs |].
  destruct (Dict.update _ _) as [|kv result]; [apply succeeds_logger |].
  apply succeeds_seq; [only_logs | only_logs | apply succeeds_logger |].
  apply succeeds_for_each; [only_logs |].
  apply Forall_forall. intros [key value] _. apply succeeds_logger.
Qed.

Lemma succeeds_check_schema_consistency item index expected_keys c :
  succeeds (check_schema_consistency item index expected_keys) c.
Proof.
  unfold check_schema_consistency.
  apply succeeds_with_self; [intros c'; only_logs |].
  destruct (bool_decide _); [apply succeeds_logger | apply succeeds_ret].
Qed.

Lemma succeeds_check_date_field c' item index field c :
  converts item → succeeds (check_date_field c' item index field) c.
Proof.
  intros Hconv. unfold check_date_field.
  destruct (Dict.get field item) as [value|] eqn:Hvalue.
  - destruct value as [ | | | | | | d]; try apply succeeds_logger.
    destruct (Dict.get "$date" d) as [timestamp|] eqn:Hdate; [| apply succeeds_logger].
    destruct (is_number timestamp); [| apply succeeds_logger].
    destruct (fromtimestamp_ms timestamp) eqn:Hts; try apply succeeds_logger.
    by destruct (Hconv field d timestamp).
  - repeat (destruct (_ && _); [apply succeeds_logger |]). apply succeeds_ret.
Qed.

Lemma succeeds_check_date_format item index c :
  converts item → succeeds (check_date_format item index) c.
Proof.
  intros Hconv. unfold check_date_format.
  apply succeeds_with_self.
  - intros c'. apply only_logs_for_each. intros field.
    apply only_logs_check_date_field.
  - apply succeeds_for_each; [intros field; apply only_logs_check_date_field |].
    apply Forall_forall. intros field _. by apply succeeds_check_date_field.
Qed.

Lemma succeeds_check_negative_numeric_fields key value index c :
  is_number value = true →
  succeeds (check_negative_numeric_fields key value index) c.
Proof.
  intros Hnum. unfold check_negative_numeric_fields.
  apply succeeds_with_self; [intros c'; only_logs |].
  destruct (existsb _ _); [| apply succeeds_ret].
  destruct value as [ | b | z | f | | | ]; try discriminate;
    cbv [succeeds findings mbind M_bind lift lt_zero].
  - done.
  - by destruct (z <? 0).
  - by destruct (SFltb f _).
Qed.

Lemma succeeds_check_empty_list key value index c :
  succeeds (check_empty_list key value index) c.
Proof.
  unfold check_empty_list. apply succeeds_with_self; [intros c'; only_logs |].
  destruct (negb _); [apply succeeds_logger | apply succeeds_ret].
Qed.

Lemma succeeds_check_id_type item index c : succeeds (check_id_type item index) c.
Proof.
  unfold check_id_type. apply succeeds_with_self; [intros c'; only_logs |].
  repeat case_match; try apply succeeds_logger; apply succeeds_ret.
Qed.

Lemma succeeds_check_field item index key value c :
  converts item → succeeds (check_field item index key value) c.
Proof.
  intros Hconv. unfold check_field.
  apply succeeds_with_self.
  - intros c'. destruct (branch_of value);
      auto using only_logs_check_date_format, only_logs_check_negative_numeric_fields,
        only_logs_check_empty_list, only_logs_logger, only_logs_ret.
  - destruct value; simpl;
      auto using succeeds_check_date_format, succeeds_check_negative_numeric_fields,
        succeeds_check_empty_list, succeeds_logger, succeeds_ret.
Qed.

Lemma succeeds_check_item item index expected_keys c :
  converts item → succeeds (check_item item index expected_keys) c.
Proof.
  intros Hconv. unfold check_item, check_field_types.
  apply succeeds_seq;
    [ apply only_logs_check_negative_values_in_item
    | apply only_logs_bind;
        [apply only_logs_check_schema_consistency
        | intros _; apply only_logs_check_field_types]
    | apply succeeds_check_negative_values_in_item | ].
  apply succeeds_seq;
    [ apply only_logs_check_schema_consistency
    | apply only_logs_check_field_types
    | apply succeeds_check_schema_consistency | ].
  apply succeeds_seq;
    [ apply only_logs_for_each; intros [key value]; apply only_logs_check_field
    | apply only_logs_check_id_type
    | | apply succeeds_check_id_type ].
  apply succeeds_for_each; [intros [key value]; apply only_logs_check_field |].
  apply Forall_forall. intros [key value] _. by apply succeeds_check_field.
Qed.

Lemma comprehension_ids (records : list dict) :
  comprehension (fun item => getitem (JDict item) "_id")
    (List.filter (Dict.mem "_id") records)
  = Ok (omap (Dict.get "_id") records).
Proof.
  induction records as [|item records IH]; [done |].
  cbn [List.filter omap list_omap]. unfold Dict.mem at 1.
  destruct (Dict.get "_id" item) as [id|] eqn:Hid; [| exact IH].
  cbn [comprehension]. rewrite IH. cbn [getitem]. by rewrite Hid.
Qed.

Lemma succeeds_check_id_uniqueness expected_keys c records :
  data c = Some records →
  Forall id_subscriptable records →
  succeeds (check_id_uniqueness expected_keys) c.
Proof.
  intros Hdata Hids. unfold check_id_uniqueness.
  apply succeeds_with_self; [intros c'; only_logs |].
  destruct (bool_decide _); [| apply succeeds_ret].
  rewrite Hdata. unfold succeeds.
  rewrite findings_bind; [| apply only_logs_lift | intros ids; only_logs].
  unfold findings at 1. unfold lift at 1. rewrite comprehension_ids. simpl.
  rewrite findings_bind; [| apply only_logs_lift | intros ids; only_logs].
  unfold findings at 1. unfold lift at 1.
  rewrite find_duplicates_hashable.
  - simpl. destruct (repeated _) as [|oid oids]; [done |].
    apply (succeeds_seq _ _ c); [only_logs | only_logs | done |].
    apply succeeds_for_each; [only_logs |].
    apply Forall_forall. intros v _. apply succeeds_logger.
  - clear Hdata. induction Hids as [|item records Hitem _ IH]; [constructor |].
    simpl. destruct (Dict.get "_id" item) as [id|] eqn:Hid; [| exact IH].
    constructor; [by apply Hitem | exact IH].
Qed.


End Completion.

(** The fixture of the repository's tests: four records, one duplicated id, one
    negative value, one record with an extra key.  The run completes and
    reports all three. *)
Example run_on_test_fixture :
  let records : list dict :=
    [ [("_id", JDict [("$oid", JStr "1")]); ("value", JInt 10)];
      [("_id", JDict [("$oid", JStr "2")]); ("value", JInt (-5))];
      [("_id", JDict [("$oid", JStr "1")]); ("value", JInt 20)];
      [("_id", JDict [("$oid", JStr "3")]); ("value", JInt 0);
       ("createDate", JDict [("$date", JInt 1611955498184)])] ] in
  let c := mkChecker "tmp.json" (Some records) "tmp" in
  @check_json_quality Sample.runtime (mkState c []) =
    (Ok tt,
     mkState c
       [ (INFO, "No negative values found in tmp.");
         (WARNING, "Negative values found:");
         (INFO, "value: -5");
         (INFO, "rewardsReceiptItemList.value: -5");
         (INFO, "No negative values found in tmp.");
         (INFO, "No negative values found in tmp.");
         (WARNING, "Inconsistent schema in tmp at line number 3");
         (WARNING, "Duplicate OIDs found in tmp");
         (INFO, "1");
         (INFO, "Data quality check completed") ]).
Proof. by vm_compute. Qed.

(** C1 at its failing inputs.  A record whose [_id] is not a mapping, or is a
    mapping without ["$oid"], is reported by [check_id_type]; the
    id-uniqueness check then subscripts it and the exception leaves
    [check_json_quality]: the completion notice is never written.  This holds
    on every runtime. *)
Theorem malformed_id_stops_the_run `{Runtime} (written : list LogRecord) :
  let not_a_mapping := mkChecker "data/brands.json" (Some [[("_id", JInt 7)]]) "brands" in
  let no_oid := mkChecker "data/brands.json" (Some [[("_id", JDict [])]]) "brands" in
  check_json_quality (mkState not_a_mapping written) =
    (Raise TypeError,
     mkState not_a_mapping
       (written ++
        [ (INFO, "No negative values found in brands.");
          (WARNING, "Invalid _id type found in brands at line number 0") ])) ∧
  check_json_quality (mkState no_oid written) =
    (Raise (KeyError "$oid"),
     mkState no_oid
       (written ++
        [ (INFO, "No negative values found in brands.");
          (WARNING, "Invalid _id type found in brands at line number 0") ])).
Proof.
  split.
  - rewrite only_logs_check_json_quality. by vm_compute.
  - rewrite only_logs_check_json_quality. by vm_compute.
Qed.

(** * The constructor, the loader and the driver *)

(** ** The entity name *)

Lemma rfind_from_app (c : ascii) (a b : string) (i found : Z) :
  rfind_from c (a +:+ b) i found
    = rfind_from c b (i + Z.of_nat (String.length a)) (rfind_from c a i found).
Proof.
  revert i found. induction a as [|x a IH]; intros i found; simpl.
  - by rewrite Z.add_0_r.
  - rewrite IH. f_equal. lia.
Qed.

Lemma rfind_from_absent (c : ascii) (s : string) (i found : Z) :
  occurs c s = false → rfind_from c s i found = found.
Proof.
  revert i found. induction s as [|x s IH]; intros i found; simpl; [done |].
  intros [Hx Hs]%orb_false_iff. by rewrite Hx, IH.
Qed.

Lemma rfind_last (c : ascii) (a b : string) :
  occurs c b = false →
  rfind c (a +:+ String c b) = Z.of_nat (String.length a).
Proof.
  intros Hb. unfold rfind. rewrite rfind_from_app. simpl.
  by rewrite Ascii.eqb_refl, rfind_from_absent.
Qed.

Lemma rfind_absent (c : ascii) (s : string) : occurs c s = false → rfind c s = -1.
Proof. apply rfind_from_absent. Qed.

Lemma occurs_app (c : ascii) (a b : string) :
  occurs c (a +:+ b) = occurs c a || occurs c b.
Proof. induction a as [|x a IH]; simpl; [done |]. by rewrite IH, orb_assoc. Qed.

Lemma slice_from_app (a b : string) : slice_from (String.length a) (a +:+ b) = b.
Proof. induction a as [|x a IH]; simpl; [by destruct b | done]. Qed.

Lemma slice_to_app (a b : string) : slice_to (String.length a) (a +:+ b) = a.
Proof. induction a as [|x a IH]; simpl; [by destruct b | by rewrite IH]. Qed.

Lemma has_non_dot_without_dots (s : string) :
  s ≠ "" → occurs "." s = false → has_non_dot s = true.
Proof.
  destruct s as [|x s]; [done |]. simpl. intros _ [Hx _]%orb_false_iff. by rewrite Hx.
Qed.

Lemma append_cons (x : ascii) (a b : string) : String x a +:+ b = String x (a +:+ b).
Proof. reflexivity. Qed.

Lemma append_assoc (a b c : string) : (a +:+ b) +:+ c = a +:+ (b +:+ c).
Proof. induction a as [|x a IH]; [done |]. by rewrite !append_cons, IH. Qed.

Lemma length_append (a b : string) :
  String.length (a +:+ b) = (String.length a + String.length b)%nat.
Proof. induction a as [|x a IH]; [done |]. rewrite append_cons. simpl. by rewrite IH. Qed.

Lemma basename_after_slash (dir base : string) :
  occurs "/" base = false → basename (dir +:+ "/" +:+ base) = base.
Proof.
  intros Hbase. unfold basename.
  change (dir +:+ "/" +:+ base) with (dir +:+ String "/" base).
  rewrite (rfind_last _ _ _ Hbase).
  replace (Z.to_nat (Z.of_nat (String.length dir) + 1))
    with (String.length (dir +:+ "/")).
  - change (dir +:+ String "/" base) with (dir +:+ ("/" +:+ base)).
    rewrite <- append_assoc. apply slice_from_app.
  - rewrite length_append. simpl. lia.
Qed.

Lemma basename_without_slash (base : string) :
  occurs "/" base = false → basename base = base.
Proof. intros Hbase. unfold basename. by rewrite rfind_absent. Qed.

Lemma splitext_named (name ext : string) :
  name ≠ "" →
  occurs "/" name = false → occurs "." name = false →
  occurs "/" ext = false → occurs "." ext = false →
  splitext (name +:+ "." +:+ ext) = (name, "." +:+ ext).
Proof.
  intros Hname Hslash Hdot Hslash' Hdot'. unfold splitext.
  rewrite (rfind_absent "/") by (rewrite !occurs_app, Hslash, Hslash'; done).
  change (name +:+ "." +:+ ext) with (name +:+ String "." ext).
  rewrite (rfind_last _ _ _ Hdot').
  replace (-1 <? Z.of_nat (String.length name)) with true by (symmetry; apply Z.ltb_lt; lia).
  change (-1 + 1) with 0. rewrite Z.sub_0_r, Nat2Z.id.
  change (slice_from (Z.to_nat 0) ?s) with s.
  by rewrite slice_to_app, slice_from_app, has_non_dot_without_dots.
Qed.

Lemma splitext_without_dot (p : string) : occurs "." p = false → splitext p = (p, "").
Proof.
  intros Hdot. unfold splitext. rewrite (rfind_absent "." _ Hdot).
  replace (rfind "/" p <? -1) with false; [done |].
  symmetry. apply Z.ltb_ge. unfold rfind.
  assert (Hge : ∀ s i found, -1 ≤ found → 0 ≤ i → -1 ≤ rfind_from "/" s i found).
  { induction s as [|x s IH]; intros i found Hfound Hi; simpl; [done |].
    apply IH; [destruct (Ascii.eqb x "/"); lia | lia]. }
  by apply Hge.
Qed.

Lemma splitext_hidden (name : string) :
  occurs "/" name = false → occurs "." name = false →
  splitext ("." +:+ name) = ("." +:+ name, "").
Proof.
  intros Hslash Hdot. unfold splitext.
  rewrite (rfind_absent "/") by (rewrite occurs_app, Hslash; done).
  change ("." +:+ name) with ("" +:+ String "." name).
  by rewrite (rfind_last _ _ _ Hdot).
Qed.

(** X1.  For a path [dir/name.ext] whose name is not empty and whose name and
    extension hold neither a slash nor a dot, the constructor derives the
    entity [name]; the directory may be anything, or missing. *)
Theorem entity_of_named_file (dir name ext : string) :
  name ≠ "" →
  occurs "/" name = false → occurs "." name = false →
  occurs "/" ext = false → occurs "." ext = false →
  entity (DataQualityChecker (dir +:+ "/" +:+ name +:+ "." +:+ ext)) = name ∧
  entity (DataQualityChecker (name +:+ "." +:+ ext)) = name.
Proof.
  intros Hname Hslash Hdot Hslash' Hdot'.
  assert (Hbase : occurs "/" (name +:+ "." +:+ ext) = false)
    by (rewrite !occurs_app, Hslash, Hslash'; done).
  unfold DataQualityChecker, entity_of. cbn [entity]. split.
  - by rewrite (basename_after_slash _ _ Hbase), splitext_named.
  - by rewrite (basename_without_slash _ Hbase), splitext_named.
Qed.

Lemma entity_of_named_file_witness :
  "receipts" ≠ "" ∧
  entity (DataQualityChecker ("data" +:+ "/" +:+ "receipts" +:+ "." +:+ "json"))
    = "receipts".
Proof.
  split; [discriminate |].
  exact (proj1 (entity_of_named_file "data" "receipts" "json"
                  ltac:(discriminate) eq_refl eq_refl eq_refl eq_refl)).
Defined.

(** X2.  The entity depends on the last path component only: whatever
    directory a file is in, its checker gets the same entity. *)
Theorem entity_of_ignores_directory (dir base : string) :
  occurs "/" base = false →
  entity (DataQualityChecker (dir +:+ "/" +:+ base)) = entity (DataQualityChecker base).
Proof.
  intros Hbase. unfold DataQualityChecker, entity_of. cbn [entity].
  by rewrite (basename_after_slash _ _ Hbase), (basename_without_slash _ Hbase).
Qed.

Lemma entity_of_ignores_directory_witness :
  occurs "/" "users.json" = false ∧
  entity (DataQualityChecker ("/srv/in.d" +:+ "/" +:+ "users.json"))
    = entity (DataQualityChecker "users.json").
Proof. split; [reflexivity |]. by apply entity_of_ignores_directory. Defined.

(** X3.  A file name without a dot, and a dot-file whose only dot is the
    leading one, have no extension to strip: the entity is the whole name. *)
Theorem entity_of_without_extension (dir name : string) :
  occurs "/" name = false → occurs "." name = false →
  entity (DataQualityChecker (dir +:+ "/" +:+ name)) = name ∧
  entity (DataQualityChecker (dir +:+ "/" +:+ "." +:+ name)) = "." +:+ name.
Proof.
  intros Hslash Hdot. unfold DataQualityChecker, entity_of. cbn [entity]. split.
  - by rewrite (basename_after_slash _ _ Hslash), splitext_without_dot.
  - rewrite basename_after_slash by (rewrite occurs_app, Hslash; done).
    by rewrite splitext_hidden.
Qed.

Lemma entity_of_without_extension_witness :
  occurs "/" "receipts" = false ∧ occurs "." "receipts" = false ∧
  entity (DataQualityChecker ("data" +:+ "/" +:+ "receipts")) = "receipts" ∧
  entity (DataQualityChecker ("data" +:+ "/" +:+ "." +:+ "receipts")) = ".receipts".
Proof.
  split; [reflexivity |]. split; [reflexivity |].
  exact (entity_of_without_extension "data" "receipts" eq_refl eq_refl).
Defined.

(** ** Loading, then checking *)

Lemma load_data_failure `{Runtime} (st : State) (e : Exn) :
  read_json_file (file_path (self st)) = Raise e →
  load_data st =
    (Raise e,
     emit st
       match e with
       | JSONDecodeError => [(WARNING, "Invalid JSON structure")]
       | FileNotFoundError => [(ERROR, "File not found: " +:+ entity (self st))]
       | _ => []
       end).
Proof.
  intros Hread. unfold load_data, mbind, M_bind, get_self. rewrite Hread.
  destruct e; try (by unfold raise; rewrite emit_nil); reflexivity.
Qed.

Lemma load_data_success `{Runtime} (st : State) (records : list dict) :
  read_json_file (file_path (self st)) = Ok records →
  load_data st =
    (Ok tt,
     mkState (mkChecker (file_path (self st)) (Some records) (entity (self st)))
       (log st ++ match records with
                  | [] => [(WARNING, "The file is empty")]
                  | _ :: _ => []
                  end)).
Proof.
  intros Hread. unfold load_data, mbind, M_bind, get_self, set_data. rewrite Hread.
  destruct records; [reflexivity |]. unfold mret, M_ret. by rewrite app_nil_r.
Qed.

(** X4.  When the file cannot be read, [main] runs no check: the exception of
    the reader leaves [main] as it is, after one line in the log for a missing
    file (an error naming the entity) or for a line that is not JSON (a
    warning), and after none for any other exception. *)
Theorem main_on_load_failure `{Runtime} (path : string) (written : list LogRecord)
    (e : Exn) :
  read_json_file path = Raise e →
  main_on path written =
    (Raise e,
     written ++
     match e with
     | JSONDecodeError => [(WARNING, "Invalid JSON structure")]
     | FileNotFoundError => [(ERROR, "File not found: " +:+ entity_of path)]
     | _ => []
     end).
Proof.
  intros Hread. unfold main_on, main, mbind, M_bind.
  by rewrite (load_data_failure (mkState (DataQualityChecker path) written) e Hread).
Qed.

Lemma main_on_load_failure_witness :
  @read_json_file Sample.runtime "data/brands.json" = Raise FileNotFoundError ∧
  @main_on Sample.runtime "data/brands.json" [] =
    (Raise FileNotFoundError, [(ERROR, "File not found: brands")]).
Proof.
  split; [reflexivity |].
  exact (@main_on_load_failure Sample.runtime "data/brands.json" [] _ eq_refl).
Defined.





(** * The single checks *)

(** ** Schema consistency *)

Lemma keys_differ (item : dict) (expected_keys : gset string) :
  Dict.keys item ≠ expected_keys ↔ ¬ (∀ k, k ∈ item.*1 ↔ k ∈ expected_keys).
Proof.
  unfold Dict.keys. rewrite set_eq. apply not_iff_compat.
  split; intros Hsame k; specialize (Hsame k);
    by rewrite elem_of_list_to_set in *.
Qed.

(** X7.  [check_schema_consistency] compares key sets: it writes nothing when
    the record has exactly the expected keys, in whatever order, and one
    warning naming the line index when a key is missing or extra.  It never
    raises. *)
Theorem check_schema_consistency_by_membership (item : dict) (index : nat)
    (expected_keys : gset string) (st : State) :
  ∃ records : list LogRecord,
    check_schema_consistency item index expected_keys st = (Ok tt, emit st records) ∧
    ((∀ k, k ∈ item.*1 ↔ k ∈ expected_keys) → records = []) ∧
    (¬ (∀ k, k ∈ item.*1 ↔ k ∈ expected_keys) →
       records =
         [(WARNING,
           "Inconsistent schema in " +:+ entity (self st)
             +:+ " at line number " +:+ pretty index)]).
Proof.
  unfold check_schema_consistency, mbind, M_bind, get_self.
  destruct (decide (Dict.keys item ≠ expected_keys)) as [Hne | Heq].
  - rewrite (bool_decide_eq_true_2 _ Hne). eexists. split; [reflexivity |].
    apply keys_differ in Hne. split; [done | done].
  - rewrite (bool_decide_eq_false_2 _ Heq). exists []. rewrite emit_nil.
    split; [done |]. split; [done |]. intros Hdiffer. by apply keys_differ in Hdiffer.
Qed.

(** ** Negative quantities *)

Lemma prefix_spec (needle haystack : string) :
  String.prefix needle haystack = true ↔ ∃ post, haystack = needle +:+ post.
Proof.
  revert needle. induction haystack as [|y haystack IH]; intros [|x needle]; simpl.
  - split; [by exists EmptyString | done].
  - split; [done | by intros [post ?]].
  - split; [by exists (String y haystack) | done].
  - destruct (Ascii.ascii_dec x y) as [-> | Hxy].
    + rewrite IH. split; intros [post Hpost]; exists post.
      * by rewrite append_cons, Hpost.
      * rewrite append_cons in Hpost. by simplify_eq.
    + split; [done |]. intros [post Hpost]. rewrite append_cons in Hpost.
      by simplify_eq.
Qed.

Lemma contains_spec (needle haystack : string) :
  contains needle haystack = true ↔ ∃ pre post, haystack = pre +:+ needle +:+ post.
Proof.
  induction haystack as [|y haystack IH]; cbn [contains].
  - rewrite orb_false_r, prefix_spec. split.
    + intros [post Hpost]. by exists EmptyString, post.
    + intros (pre & post & Hpost). destruct pre; [by exists post |].
      by rewrite append_cons in Hpost.
  - rewrite orb_true_iff, prefix_spec, IH. split.
    + intros [[post Hpost] | (pre & post & Hpost)].
      * by exists EmptyString, post.
      * exists (String y pre), post. by rewrite append_cons, Hpost.
    + intros (pre & post & Hpost). destruct pre as [|x pre].
      * left. by exists post.
      * right. rewrite append_cons in Hpost. simplify_eq. by exists pre, post.
Qed.

Lemma names_a_quantity_test (key : string) :
  existsb (fun indicator => contains indicator (lower key))
    ["count"; "amount"; "price"; "quantity"] = true
  ↔ names_a_quantity key.
Proof.
  unfold names_a_quantity. rewrite existsb_exists. split.
  - intros (indicator & Hin & (pre & post & Hkey)%contains_spec).
    exists indicator, pre, post. by rewrite list_elem_of_In.
  - intros (indicator & pre & post & Hin & Hkey). exists indicator.
    rewrite <- list_elem_of_In, contains_spec. eauto.
Qed.

(** X8.  On a number, [check_negative_numeric_fields] warns exactly when the
    value is below zero and the key, lower-cased, contains "count", "amount",
    "price" or "quantity" somewhere; the warning names key, entity and line
    index.  It never raises on a number. *)
Theorem check_negative_numeric_fields_on_numbers (key : string) (value : json)
    (index : nat) (st : State) :
  is_number value = true →
  ∃ records : list LogRecord,
    check_negative_numeric_fields key value index st = (Ok tt, emit st records) ∧
    (names_a_quantity key ∧ lt_zero value = Ok true →
       records =
         [(WARNING,
           "Negative value for " +:+ key +:+ " found in " +:+ entity (self st)
             +:+ " at line number  " +:+ pretty index)]) ∧
    (¬ (names_a_quantity key ∧ lt_zero value = Ok true) → records = []).
Proof.
  intros Hnumber.
  assert (Hlt : ∃ negative, lt_zero value = Ok negative)
    by (destruct value; try discriminate; eexists; reflexivity).
  destruct Hlt as [negative Hlt].
  unfold check_negative_numeric_fields, mbind, M_bind, get_self, lift.
  destruct (existsb _ _) eqn:Hkey.
  - apply names_a_quantity_test in Hkey. rewrite Hlt. destruct negative.
    + eexists. split; [reflexivity |]. split; [done |]. intros Hno. by destruct Hno.
    + exists []. rewrite emit_nil. split; [done |]. split; [| done].
      by intros [_ Hneg].
  - exists []. rewrite emit_nil. split; [done |]. split; [| done].
    intros [Hquantity _]. apply names_a_quantity_test in Hquantity. congruence.
Qed.

Lemma check_negative_numeric_fields_on_numbers_witness :
  let st := mkState (mkChecker "data/receipts.json" None "receipts") [] in
  is_number (JInt (-3)) = true ∧
  ∃ records : list LogRecord,
    check_negative_numeric_fields "totalPRICE" (JInt (-3)) 2 st = (Ok tt, emit st records).
Proof.
  split; [reflexivity |].
  destruct (check_negative_numeric_fields_on_numbers "totalPRICE" (JInt (-3)) 2
              (mkState (mkChecker "data/receipts.json" None "receipts") []) eq_refl)
    as (records & Hrun & _).
  by exists records.
Defined.

(** ** Date fields that are present *)

(** X9.  A recognized date field that is present but is no wrapped timestamp
    costs exactly one warning and never an exception, whatever the entity and
    the platform: the shape warning, with the line index, when the value is
    not a mapping or has no ["$date"]; the invalid-date warning when
    ["$date"] holds something that is not a number. *)
Theorem check_date_field_malformed `{Runtime} (c : Checker) (item : dict)
    (index : nat) (field : string) (value : json) (st : State) :
  Dict.get field item = Some value →
  (∀ timestamp, timestamp_of value = Some timestamp → is_number timestamp = false) →
  check_date_field c item index field st =
    (Ok tt,
     emit st
       [(WARNING,
         match timestamp_of value with
         | Some _ => field +:+ ": Invalid date format in " +:+ entity c
         | None =>
             field +:+ ": Incorrect date format found in " +:+ entity c
               +:+ " at line number " +:+ pretty index
               +:+ " (expected {'$date': timestamp})"
         end)]).
Proof.
  intros Hvalue Hnot_number. unfold check_date_field. rewrite Hvalue.
  destruct value as [ | b | z | f | s | l | d ]; try reflexivity.
  simpl in Hnot_number |- *.
  destruct (Dict.get "$date" d) as [timestamp|]; [| reflexivity].
  by rewrite (Hnot_number timestamp eq_refl).
Qed.

Lemma check_date_field_malformed_witness :
  let c := mkChecker "data/users.json" None "users" in
  let item : dict := [("createDate", JStr "not-a-date")] in
  Dict.get "createDate" item = Some (JStr "not-a-date") ∧
  @check_date_field Sample.runtime c item 0 "createDate" (mkState c []) =
    (Ok tt,
     mkState c
       [(WARNING,
         "createDate: Incorrect date format found in users at line number 0 (expected {'$date': timestamp})")]).
Proof.
  split; [reflexivity |].
  rewrite (@check_date_field_malformed Sample.runtime
             (mkChecker "data/users.json" None "users")
             [("createDate", JStr "not-a-date")] 0 "createDate"
             (JStr "not-a-date") _ eq_refl); [reflexivity |].
  intros timestamp Hts. discriminate Hts.
Defined.

(** ** One date check per string field *)

Lemma findings_for_each {A} (xs : list A) (body : A → M unit) (c : Checker) :
  (∀ x, only_logs (body x)) →
  Forall (fun x => succeeds (body x) c) xs →
  findings (for_each xs body) c
    = (Ok tt, concat ((fun x => (findings (body x) c).2) <$> xs)).
Proof.
  intros Hbody. induction 1 as [|x xs Hx _ IH]; [done |].
  cbn [for_each]. rewrite findings_bind; [| done | intros _; by apply only_logs_for_each].
  unfold succeeds in Hx. rewrite IH, fmap_cons. cbn [concat].
  by destruct (findings (body x) c) as [[[] | e] l].
Qed.

Lemma findings_with_self {A} (f : Checker → M A) (c : Checker) :
  (∀ c', only_logs (f c')) → findings (get_self ≫= f) c = findings (f c) c.
Proof.
  intros Hf. rewrite findings_bind by auto using only_logs_get_self.
  replace (findings get_self c) with (Ok c, @nil LogRecord) by done.
  by destruct (findings (f c) c).
Qed.

Lemma occurrences_app line l1 l2 :
  occurrences line (l1 ++ l2) = (occurrences line l1 + occurrences line l2)%nat.
Proof. unfold occurrences. by rewrite filter_app, length_app. Qed.

Lemma occurrences_without_M line l :
  starts_with_M line = true →
  Forall (fun r => starts_with_M r = false) l →
  occurrences line l = 0%nat.
Proof.
  intros Hline. unfold occurrences. induction 1 as [|r l Hr _ IH]; [done |].
  rewrite filter_cons, decide_False; [done | congruence].
Qed.

Lemma occurrences_concat {A} line (lines : A → list LogRecord) (P : A → bool)
    (xs : list A) :
  Forall (fun x => occurrences line (lines x) = if P x then 1%nat else 0%nat) xs →
  occurrences line (concat (lines <$> xs)) = length (filter (fun x => P x = true) xs).
Proof.
  induction 1 as [|x xs Hx _ IH]; [done |].
  rewrite fmap_cons. cbn [concat]. rewrite occurrences_app, Hx, IH, filter_cons.
  destruct (P x); [by rewrite decide_True | by rewrite decide_False].
Qed.

Lemma occurrences_same line : occurrences line [line] = 1%nat.
Proof. unfold occurrences. by rewrite filter_cons, decide_True. Qed.

Lemma findings_logger (level : Level) (msg : string) (c : Checker) :
  findings (logger level msg) c = (Ok tt, [(level, msg)]).
Proof. done. Qed.

Lemma date_turn_occurrences `{Runtime} (c c' : Checker) (item : dict) (index : nat)
    (field : string) :
  entity c = "users" →
  Dict.get "lastLogin" item = None →
  field ∈ date_fields →
  occurrences (missing_last_login index)
    (findings (check_date_field c item index field) c').2
  = if bool_decide (field = "lastLogin") then 1%nat else 0%nat.
Proof.
  intros Husers Habsent Hfield.
  destruct (Dict.get field item) as [value|] eqn:Hvalue.
  - assert (Hne : field ≠ "lastLogin") by congruence.
    rewrite (bool_decide_eq_false_2 _ Hne).
    apply occurrences_without_M; [done |].
    unfold check_date_field. rewrite Hvalue. unfold date_fields in Hfield.
    repeat (apply elem_of_cons in Hfield as [-> | Hfield]);
      [done | .. | by apply elem_of_nil in Hfield];
      repeat case_match; rewrite ?findings_logger; by repeat constructor.
  - unfold findings. rewrite (check_date_field_absent _ _ _ _ _ Hfield Hvalue).
    cbn [snd log emit app]. unfold missing_date_field_records. rewrite Husers.
    cbn [decide]. unfold date_fields in Hfield.
    repeat (apply elem_of_cons in Hfield as [-> | Hfield]);
      [apply occurrences_same | done .. | by apply elem_of_nil in Hfield].
Qed.

Lemma date_check_occurrences `{Runtime} (c : Checker) (item : dict) (index : nat) :
  entity c = "users" →
  Dict.get "lastLogin" item = None →
  converts item →
  occurrences (missing_last_login index) (findings (check_date_format item index) c).2
  = 1%nat.
Proof.
  intros Husers Habsent Hconv. unfold check_date_format.
  rewrite findings_with_self
    by (intros c'; apply only_logs_for_each; intros field;
        apply only_logs_check_date_field).
  rewrite findings_for_each.
  - cbn [snd].
    rewrite (occurrences_concat _ _ (fun field => bool_decide (field = "lastLogin")));
      [done |].
    apply Forall_forall. intros field Hfield. by apply date_turn_occurrences.
  - intros field. apply only_logs_check_date_field.
  - apply Forall_forall. intros field _. by apply succeeds_check_date_field.
Qed.

Lemma field_occurrences `{Runtime} (c : Checker) (item : dict) (index : nat)
    (key : string) (value : json) :
  entity c = "users" →
  Dict.get "lastLogin" item = None →
  converts item →
  occurrences (missing_last_login index)
    (findings (check_field item index key value) c).2
  = if is_str value then 1%nat else 0%nat.
Proof.
  intros Husers Habsent Hconv. unfold check_field.
  rewrite findings_with_self.
  - destruct value as [ | b | z | f | s | l | d ]; cbn [branch_of is_str];
      try by apply date_check_occurrences.
    + by apply occurrences_without_M; [| repeat constructor].
    + apply occurrences_without_M; [done |].
      cbv [check_negative_numeric_fields findings mbind M_bind get_self lift lt_zero].
      destruct (existsb _ _); by repeat constructor.
    + apply occurrences_without_M; [done |].
      cbv [check_negative_numeric_fields findings mbind M_bind get_self lift lt_zero].
      destruct (existsb _ _); [destruct (z <? 0) |]; by repeat constructor.
    + apply occurrences_without_M; [done |].
      cbv [check_negative_numeric_fields findings mbind M_bind get_self lift lt_zero].
      destruct (existsb _ _); [destruct (SFltb f _) |]; by repeat constructor.
    + apply occurrences_without_M; [done |].
      cbv [check_empty_list findings mbind M_bind get_self].
      destruct (negb _); by repeat constructor.
    + done.
  - intros c'. destruct (branch_of value);
      auto using only_logs_check_date_format, only_logs_check_negative_numeric_fields,
        only_logs_check_empty_list, only_logs_logger, only_logs_ret.
Qed.

(** X10.  [check_field_types] runs the date check of the whole record once
    for every field that holds a string, and not at all when none does: in a
    users file, a record without [lastLogin] gets the missing-[lastLogin]
    warning as many times as it has string-valued fields. *)
Theorem missing_last_login_once_per_string `{Runtime} (item : dict) (index : nat)
    (st : State) :
  entity (self st) = "users" →
  Dict.get "lastLogin" item = None →
  converts item →
  ∃ records : list LogRecord,
    check_field_types item index st = (Ok tt, emit st records) ∧
    occurrences (missing_last_login index) records
      = length (filter (fun value => is_str value = true) item.*2).
Proof.
  intros Husers Habsent Hconv.
  rewrite only_logs_check_field_types. unfold check_field_types.
  rewrite findings_bind; cycle 1.
  { apply only_logs_for_each. intros [key value]. apply only_logs_check_field. }
  { intros _. apply only_logs_check_id_type. }
  rewrite findings_for_each; cycle 1.
  { intros [key value]. apply only_logs_check_field. }
  { apply Forall_forall. intros [key value] _. by apply succeeds_check_field. }
  pose proof (succeeds_check_id_type item index (self st)) as Hid.
  unfold succeeds in Hid. cbn [fst snd]. rewrite Hid.
  eexists. split; [reflexivity |].
  rewrite occurrences_app.
  rewrite (occurrences_concat _ _ (fun entry => is_str entry.2)).
  - rewrite (occurrences_without_M _ (findings (check_id_type item index) (self st)).2).
    + rewrite Nat.add_0_r. clear. induction item as [|[key value] item IH]; [done |].
      rewrite fmap_cons, !filter_cons. cbn [snd].
      destruct (is_str value); [rewrite !decide_True by done | rewrite !decide_False by done];
        simpl; by rewrite IH.
    + done.
    + unfold check_id_type. rewrite findings_with_self by (intros c'; only_logs).
      repeat case_match; rewrite ?findings_logger; by repeat constructor.
  - apply Forall_forall. intros [key value] _. by apply field_occurrences.
Qed.

Lemma missing_last_login_once_per_string_witness :
  let c := mkChecker "data/users.json" None "users" in
  let item : dict :=
    [ ("_id", JDict [("$oid", JStr "u1")]); ("role", JStr "consumer");
      ("state", JStr "WI"); ("active", JBool true) ] in
  entity c = "users" ∧
  Dict.get "lastLogin" item = None ∧
  ∃ records : list LogRecord,
    @check_field_types Sample.runtime item 5 (mkState c []) = (Ok tt, mkState c records) ∧
    occurrences (missing_last_login 5) records = 2%nat.
Proof.
  split; [reflexivity |]. split; [reflexivity |].
  destruct (@missing_last_login_once_per_string Sample.runtime
              [ ("_id", JDict [("$oid", JStr "u1")]); ("role", JStr "consumer");
                ("state", JStr "WI"); ("active", JBool true) ] 5
              (mkState (mkChecker "data/users.json" None "users") [])
              eq_refl eq_refl)
    as (records & Hrun & Hcount).
  - intros field d timestamp Hfield Hdate. cbn [Dict.get] in Hfield.
    repeat (destruct (String.eqb _ field); [by simplify_eq |]). discriminate.
  - exists records. split; [exact Hrun | exact Hcount].
Defined.

(** * The collection-wide checks *)

(** ** When [find_duplicates] returns *)

Lemma comprehension_ok_inv {A B} (f : A → Res B) (xs : list A) (ys : list B) :
  comprehension f xs = Ok ys → Forall2 (fun x y => f x = Ok y) xs ys.
Proof.
  revert ys. induction xs as [|x xs IH]; intros ys; simpl.
  - intros [= <-]. constructor.
  - destruct (f x) as [y | e] eqn:Hx; [| done].
    destruct (comprehension f xs) as [ys' | e]; [| done].
    intros [= <-]. constructor; [done | by apply IH].
Qed.

Lemma comprehension_raise_inv {A B} (f : A → Res B) (xs : list A) (e : Exn) :
  comprehension f xs = Raise e → ∃ x, x ∈ xs ∧ f x = Raise e.
Proof.
  induction xs as [|x xs IH]; simpl; [done |].
  destruct (f x) as [y | e'] eqn:Hx.
  - destruct (comprehension f xs) as [ys | e']; [done |].
    intros [= ->]. destruct IH as (x' & Hin & Hx'); [done |].
    exists x'. split; [by right | done].
  - intros [= ->]. exists x. split; [by left | done].
Qed.

Lemma Counter_update_ok_inv (count result : list (json * nat)) (elems : list json) :
  Counter_update count elems = Ok result →
  Forall (fun v => is_Some (hash_key v)) elems.
Proof.
  revert count. induction elems as [|v elems IH]; intros count; simpl; [constructor |].
  destruct (hash_key v) as [k|] eqn:Hk; [| done].
  intros Hrest. constructor; [by exists k | by eapply IH].
Qed.

Lemma Counter_update_raise_inv (count : list (json * nat)) (elems : list json) (e : Exn) :
  Counter_update count elems = Raise e → e = TypeError.
Proof.
  revert count. induction elems as [|v elems IH]; intros count; simpl; [done |].
  destruct (hash_key v); [apply IH | by intros [= <-]].
Qed.

Lemma getitem_oid_ok (item oid : json) :
  getitem item "$oid" = Ok oid ↔ oid_of item = Some oid.
Proof.
  destruct item; simpl; try (split; discriminate).
  destruct (Dict.get "$oid" d); split; intros; by simplify_eq.
Qed.

Lemma find_duplicates_ok_inv (data result : list json) :
  find_duplicates data = Ok result → Forall has_hashable_oid data.
Proof.
  unfold find_duplicates, Counter, mbind, Res_bind.
  destruct (comprehension _ data) as [oids | e] eqn:Hoids; [| done].
  destruct (Counter_update [] oids) as [count | e] eqn:Hcount; [| done].
  intros _. apply comprehension_ok_inv in Hoids. apply Counter_update_ok_inv in Hcount.
  induction Hoids as [|item oid data oids Hitem _ IH]; [constructor |].
  apply Forall_cons in Hcount as [Hoid Hrest].
  constructor; [| by apply IH]. exists oid. split; [by apply getitem_oid_ok | done].
Qed.

Lemma find_duplicates_raise_inv (data : list json) (e : Exn) :
  find_duplicates data = Raise e → e = TypeError ∨ e = KeyError "$oid".
Proof.
  unfold find_duplicates, Counter, mbind, Res_bind.
  destruct (comprehension _ data) as [oids | e'] eqn:Hoids.
  - destruct (Counter_update [] oids) as [count | e'] eqn:Hcount; [done |].
    intros [= ->]. left. by eapply Counter_update_raise_inv.
  - intros [= ->]. apply comprehension_raise_inv in Hoids as (item & _ & Hitem).
    destruct item; simpl in Hitem; simplify_eq; [by left .. |].
    destruct (Dict.get "$oid" d); simplify_eq. by right.
Qed.

(** X11.  [find_duplicates] returns normally exactly on the lists whose
    elements are all mappings with a hashable value under ["$oid"]; on any
    other list it raises [TypeError] or [KeyError] for ["$oid"], and nothing
    else. *)
Theorem find_duplicates_domain (data : list json) :
  ((∃ result, find_duplicates data = Ok result) ↔ Forall has_hashable_oid data) ∧
  (∀ e, find_duplicates data = Raise e → e = TypeError ∨ e = KeyError "$oid").
Proof.
  split; [split |].
  - intros [result Hresult]. by eapply find_duplicates_ok_inv.
  - intros Hdata. eexists. by apply find_duplicates_hashable.
  - apply find_duplicates_raise_inv.
Qed.

(** ** The report of the id-uniqueness check *)

(** X12.  When the baseline has [_id] and every [_id] present can be
    subscripted, [check_id_uniqueness] looks at the ["$oid"] of every record
    that has an [_id] and writes either the no-duplicates line or the
    warning followed by one line per repeated identifier, in first-seen
    order. *)
Theorem check_id_uniqueness_report `{Runtime} (expected_keys : gset string)
    (records : list dict) (st : State) :
  data (self st) = Some records →
  "_id" ∈ expected_keys →
  Forall id_subscriptable records →
  check_id_uniqueness expected_keys st =
    (Ok tt,
     emit st
       match repeated (omap oid_of (omap (Dict.get "_id") records)) with
       | [] => [(INFO, "No duplicates found in " +:+ entity (self st) +:+ ".")]
       | duplicate_oids =>
           (WARNING, "Duplicate OIDs found in " +:+ entity (self st))
           :: ((fun oid => (INFO, str oid)) <$> duplicate_oids)
       end).
Proof.
  intros Hdata Hkey Hids.
  unfold check_id_uniqueness, mbind, M_bind, get_self, lift.
  rewrite (bool_decide_eq_true_2 _ Hkey), Hdata, comprehension_ids.
  rewrite find_duplicates_hashable.
  - destruct (repeated _) as [|oid oids]; [reflexivity |].
    unfold logger at 1. by rewrite for_each_logger, emit_emit.
  - clear Hdata. induction Hids as [|item records' Hitem _ IH]; [constructor |].
    simpl. destruct (Dict.get "_id" item) as [id|] eqn:Hid; [| exact IH].
    constructor; [by apply Hitem | exact IH].
Qed.

Lemma check_id_uniqueness_report_witness :
  let records : list dict :=
    [ [("_id", JDict [("$oid", JStr "1")])]; [("_id", JDict [("$oid", JStr "2")])];
      [("name", JStr "no id")]; [("_id", JDict [("$oid", JStr "1")])] ] in
  let st := mkState (mkChecker "data/brands.json" (Some records) "brands") [] in
  data (self st) = Some records ∧
  @check_id_uniqueness Sample.runtime {["_id"]} st =
    (Ok tt, emit st [(WARNING, "Duplicate OIDs found in brands"); (INFO, "1")]).
Proof.
  split; [reflexivity |].
  rewrite (@check_id_uniqueness_report Sample.runtime {["_id"]}
             [ [("_id", JDict [("$oid", JStr "1")])]; [("_id", JDict [("$oid", JStr "2")])];
               [("name", JStr "no id")]; [("_id", JDict [("$oid", JStr "1")])] ]);
    [reflexivity | reflexivity | by apply elem_of_singleton | ].
  repeat constructor; intros id [= <-]; eexists; (split; [reflexivity | by eexists]).
Defined.

(** ** The whole run, step by step *)

Lemma findings_check_json_quality `{Runtime} (c : Checker) (first : dict)
    (rest : list dict) :
  data c = Some (first :: rest) →
  findings check_json_quality c =
    match
      findings
        (for_each (enumerate (first :: rest))
           (fun '(index, item) => check_item item index (Dict.keys first))) c
    with
    | (Ok _, found) =>
        match findings (check_id_uniqueness (Dict.keys first)) c with
        | (Ok _, found') =>
            (Ok tt, found ++ found' ++ [(INFO, "Data quality check completed")])
        | (Raise e, found') => (Raise e, found ++ found')
        end
    | (Raise e, found) => (Raise e, found)
    end.
Proof.
  intros Hdata. unfold check_json_quality.
  rewrite findings_with_self.
  - rewrite Hdata. cbv beta iota.
    rewrite findings_bind; cycle 1.
    { apply only_logs_for_each. intros [index item]. apply only_logs_check_item. }
    { intros _. apply only_logs_bind; [apply only_logs_check_id_uniqueness |].
      intros _. apply only_logs_logger. }
    destruct (findings (for_each _ _) c) as [[[] | e] found]; [| done].
    rewrite findings_bind;
      [| apply only_logs_check_id_uniqueness | intros _; apply only_logs_logger].
    by destruct (findings (check_id_uniqueness _) c) as [[[] | e] found'].
  - intros c'. destruct (data c') as [[|first' rest']|]; try apply only_logs_ret.
    apply only_logs_bind.
    + apply only_logs_for_each. intros [index item]. apply only_logs_check_item.
    + intros _. apply only_logs_bind; [apply only_logs_check_id_uniqueness |].
      intros _. apply only_logs_logger.
Qed.

Lemma succeeds_all_items `{Runtime} (c : Checker) (records : list dict)
    (expected_keys : gset string) :
  Forall converts records →
  succeeds
    (for_each (enumerate records)
       (fun '(index, item) => check_item item index expected_keys)) c.
Proof.
  intros Hconv.
  apply succeeds_for_each; [intros [index item]; apply only_logs_check_item |].
  apply Forall_forall. intros [index item] (i & x & [= -> ->] & Hx)%elem_of_lookup_imap.
  apply succeeds_check_item. eapply Forall_forall; [exact Hconv |].
  by eapply list_elem_of_lookup_2.
Qed.





(** * The negative-value scanner, in full *)

Lemma dotted_extends (prefix key : string) : ∃ rest, dotted prefix key = prefix +:+ rest.
Proof.
  destruct prefix as [|a prefix]; [by exists key |].
  by exists ("." +:+ key).
Qed.

Lemma mapping_leaf_extends_prefix data prefix path value :
  mapping_leaf data prefix path value → ∃ rest, path = prefix +:+ rest.
Proof.
  induction 1 as
    [ d prefix key value _ _
    | d prefix key sub path value _ _ IH
    | l prefix index sub path value _ _ IH ].
  - apply dotted_extends.
  - destruct IH as [rest ->]. destruct (dotted_extends prefix key) as [r ->].
    exists (r +:+ rest). apply append_assoc.
  - destruct IH as [rest ->]. unfold indexed. eexists. apply append_assoc.
Qed.

Lemma mapping_leaf_reprefix data prefix path value (prefix' : string) :
  mapping_leaf data prefix path value → ∃ path', mapping_leaf data prefix' path' value.
Proof.
  intros Hleaf. revert prefix'.
  induction Hleaf as
    [ d prefix key value Hentry Hscalar
    | d prefix key sub path value Hentry _ IH
    | l prefix index sub path value Hsub _ IH ]; intros prefix'.
  - eexists. by apply leaf_entry.
  - destruct (IH (dotted prefix' key)) as [path' Hpath'].
    exists path'. by eapply leaf_below_key.
  - destruct (IH (indexed prefix' index)) as [path' Hpath'].
    exists path'. by eapply leaf_below_index.
Qed.

Lemma scan_empty_any_prefix `{Runtime} (data : json) (prefix prefix' : string) :
  check_negative_values data prefix = [] → check_negative_values data prefix' = [].
Proof.
  intros Hnil.
  destruct (check_negative_values data prefix') as [|[path n] found] eqn:Hfound; [done |].
  assert (Hin : (path, n) ∈ check_negative_values data prefix') by (rewrite Hfound; by left).
  apply scanned_is_mapping_leaf in Hin as (value & Hleaf & Hvalue).
  destruct (mapping_leaf_reprefix _ _ _ _ prefix Hleaf) as [path' Hleaf'].
  pose proof (mapping_leaf_is_scanned _ _ _ _ _ Hleaf' Hvalue) as Hkey.
  rewrite Hnil in Hkey. by apply elem_of_nil in Hkey.
Qed.

(** X15.  The paths the scanner reports are exactly the paths of the negative
    numbers (after the coercion of strings) stored under a key of a mapping,
    at any depth below mappings and lists. *)
Theorem check_negative_values_paths `{Runtime} (data : json) (prefix path : string) :
  path ∈ (check_negative_values data prefix).*1 ↔
  ∃ value n, mapping_leaf data prefix path value ∧ negative_leaf value = Some n.
Proof.
  split.
  - intros ([p n] & -> & Hin)%list_elem_of_fmap. simpl.
    destruct (scanned_is_mapping_leaf _ _ _ _ Hin) as (value & Hleaf & Hvalue).
    by exists value, n.
  - intros (value & n & Hleaf & Hvalue). by eapply mapping_leaf_is_scanned.
Qed.

(** X17.  Every path of the result starts with the path the scan was started
    from: the second scan of a record reports under [rewardsReceiptItemList]
    only. *)
Theorem reported_paths_extend_prefix `{Runtime} (data : json) (prefix : string) :
  Forall (fun entry => ∃ rest, entry.1 = prefix +:+ rest)
    (check_negative_values data prefix).
Proof.
  apply Forall_forall. intros [path n] Hin. simpl.
  destruct (scanned_is_mapping_leaf _ _ _ _ Hin) as (value & Hleaf & _).
  by eapply mapping_leaf_extends_prefix.
Qed.

(** X18.  Whether a scan finds anything does not depend on the path it starts
    from, so the first scan alone decides what [check_negative_values_in_item]
    writes: the success line when it is empty, the warning and one line per
    entry of the merged result otherwise. *)
Theorem negative_report_by_first_scan `{Runtime} (item : dict) (st : State) :
  check_negative_values_in_item item st =
    (Ok tt,
     emit st
       match check_negative_values (JDict item) "" with
       | [] => [(INFO, "No negative values found in " +:+ entity (self st) +:+ ".")]
       | _ :: _ =>
           (WARNING, "Negative values found:") ::
           ((fun '(key, value) => (INFO, key +:+ ": " +:+ str value))
              <$> Dict.update (check_negative_values (JDict item) "")
                    (check_negative_values (JDict item) "rewardsReceiptItemList"))
       end).
Proof.
  pose proof (check_negative_values_in_item_log item st) as Hlog. cbv zeta in Hlog.
  destruct Hlog as (records & -> & Hnone & Hsome). do 2 f_equal.
  destruct (check_negative_values (JDict item) "") as [|entry whole] eqn:Hwhole.
  - apply Hnone. split; [done |]. by eapply scan_empty_any_prefix.
  - apply Hsome. by intros [? _].
Qed.

(** * What one record can do to the run *)

(** ** The only exception of the per-record checks *)

Lemma at_most_OSError_ret : at_most_OSError (mret tt).
Proof. intros st. by left. Qed.

Lemma at_most_OSError_logger (level : Level) (msg : string) :
  at_most_OSError (logger level msg).
Proof. intros st. by left. Qed.

Lemma at_most_OSError_seq (m k : M unit) :
  at_most_OSError m → at_most_OSError k → at_most_OSError (m ;; k).
Proof.
  intros Hm Hk st. unfold mbind, M_bind. specialize (Hm st).
  destruct (m st) as [[[] | e] st']; simpl in *; [apply Hk |].
  destruct Hm as [? | [= ->]]; [discriminate | by right].
Qed.

Lemma at_most_OSError_for_each {A} (xs : list A) (body : A → M unit) :
  (∀ x, at_most_OSError (body x)) → at_most_OSError (for_each xs body).
Proof.
  intros Hbody. induction xs as [|x xs IH]; simpl; [apply at_most_OSError_ret |].
  by apply at_most_OSError_seq.
Qed.

Lemma at_most_OSError_with_self (f : Checker → M unit) :
  (∀ c, at_most_OSError (f c)) → at_most_OSError (get_self ≫= f).
Proof. intros Hf st. apply Hf. Qed.

Section OnlyOSError.

Context `{Runtime}.

Lemma at_most_OSError_check_negative_values_in_item item :
  at_most_OSError (check_negative_values_in_item item).
Proof.
  unfold check_negative_values_in_item.
  apply at_most_OSError_with_self. intros c. destruct (Dict.update _ _).
  - apply at_most_OSError_logger.
  - apply at_most_OSError_seq; [apply at_most_OSError_logger |].
    apply at_most_OSError_for_each. intros [key value]. apply at_most_OSError_logger.
Qed.

Lemma at_most_OSError_check_schema_consistency item index expected_keys :
  at_most_OSError (check_schema_consistency item index expected_keys).
Proof.
  unfold check_schema_consistency. apply at_most_OSError_with_self. intros c.
  destruct (bool_decide _); [apply at_most_OSError_logger | apply at_most_OSError_ret].
Qed.

Lemma at_most_OSError_check_date_field c item index field :
  at_most_OSError (check_date_field c item index field).
Proof.
  unfold check_date_field.
  repeat
    match goal with
    | |- at_most_OSError (logger _ _) => apply at_most_OSError_logger
    | |- at_most_OSError (mret tt) => apply at_most_OSError_ret
    | |- at_most_OSError (raise OSError) => intros st; by right
    | |- at_most_OSError (match ?x with _ => _ end) => destruct x
    end.
Qed.

Lemma at_most_OSError_check_date_format item index :
  at_most_OSError (check_date_format item index).
Proof.
  unfold check_date_format.
  apply at_most_OSError_with_self. intros c. apply at_most_OSError_for_each.
  intros field. apply at_most_OSError_check_date_field.
Qed.

Lemma at_most_OSError_check_field item index key value :
  at_most_OSError (check_field item index key value).
Proof.
  unfold check_field. apply at_most_OSError_with_self. intros c.
  destruct value as [ | b | z | f | s | l | d ]; cbn [branch_of];
    try apply at_most_OSError_logger; try apply at_most_OSError_ret;
    try apply at_most_OSError_check_date_format.
  all: intros st;
    unfold check_negative_numeric_fields, check_empty_list, mbind, M_bind, get_self, lift;
    cbn [lt_zero];
    repeat
      match goal with
      | |- context [if ?x then _ else _] => destruct x
      end; by left.
Qed.

Lemma at_most_OSError_check_id_type item index :
  at_most_OSError (check_id_type item index).
Proof. intros st. left. pose proof (succeeds_check_id_type item index (self st)) as Hid.
  unfold succeeds in Hid. by rewrite only_logs_check_id_type, Hid.
Qed.


End OnlyOSError.

(** ** A record that raises *)

Lemma findings_for_each_raise {A} (before after : list A) (x : A) (body : A → M unit)
    (c : Checker) (e : Exn) (found : list LogRecord) :
  (∀ x, only_logs (body x)) →
  Forall (fun x => succeeds (body x) c) before →
  findings (body x) c = (Raise e, found) →
  findings (for_each (before ++ x :: after) body) c =
    (Raise e, concat ((fun x => (findings (body x) c).2) <$> before) ++ found).
Proof.
  intros Hbody Hbefore Hx. induction Hbefore as [|y before Hy _ IH].
  - cbn [app for_each fmap list_fmap concat].
    rewrite findings_bind; [| done | intros _; by apply only_logs_for_each].
    by rewrite Hx.
  - rewrite <- app_comm_cons. cbn [for_each].
    rewrite findings_bind; [| done | intros _; by apply only_logs_for_each].
    rewrite IH, fmap_cons. cbn [concat]. unfold succeeds in Hy.
    destruct (findings (body y) c) as [[[] | e'] l]; [| discriminate].
    simpl. by rewrite app_assoc.
Qed.

(** X22.  The records are checked in file order and the first one whose
    checks raise ends the run with that exception: the findings on the
    records before it and its own are in the log, the later records are not
    looked at, no identifier is compared and no completion notice is
    written. *)
Theorem failing_record_stops_the_run `{Runtime} (st : State) (first : dict)
    (rest before after : list dict) (bad : dict) (e : Exn) (found : list LogRecord) :
  data (self st) = Some (first :: rest) →
  first :: rest = before ++ bad :: after →
  Forall converts before →
  findings (check_item bad (length before) (Dict.keys first)) (self st) = (Raise e, found) →
  check_json_quality st =
    (Raise e,
     emit st
       (concat
          (imap (fun index item =>
                   (findings (check_item item index (Dict.keys first)) (self st)).2)
             before)
        ++ found)).
Proof.
  intros Hdata Hsplit Hconv Hbad.
  rewrite only_logs_check_json_quality, (findings_check_json_quality _ _ _ Hdata).
  rewrite Hsplit. unfold enumerate. rewrite imap_app. cbn [imap]. rewrite Nat.add_0_r.
  rewrite (findings_for_each_raise _ _ _ _ _ e found).
  - cbn [fst snd]. do 4 f_equal. rewrite fmap_imap. by apply imap_ext.
  - intros [index item]. apply only_logs_check_item.
  - apply Forall_forall.
    intros [index item] (i & x & [= -> ->] & Hx)%elem_of_lookup_imap.
    apply succeeds_check_item. eapply Forall_forall; [exact Hconv |].
    by eapply list_elem_of_lookup_2.
  - exact Hbad.
Qed.

Lemma failing_record_stops_the_run_witness :
  let records : list dict :=
    [ [("value", JInt (-1))];
      [("name", JStr "x"); ("createDate", JDict [("$date", JInt (2 ^ 62))])];
      [("value", JInt (-2))] ] in
  let st := mkState (mkChecker "data/brands.json" (Some records) "brands") [] in
  data (self st) = Some records ∧
  @check_json_quality Sample.runtime st =
    (Raise OSError,
     emit st
       [ (WARNING, "Negative values found:");
         (INFO, "value: -1");
         (INFO, "rewardsReceiptItemList.value: -1");
         (INFO, "No negative values found in brands.");
         (WARNING, "Inconsistent schema in brands at line number 1") ]).
Proof.
  split; [reflexivity |].
  rewrite (@failing_record_stops_the_run Sample.runtime
             (mkState (mkChecker "data/brands.json"
                (Some [ [("value", JInt (-1))];
                        [("name", JStr "x");
                         ("createDate", JDict [("$date", JInt (2 ^ 62))])];
                        [("value", JInt (-2))] ]) "brands") [])
             [("value", JInt (-1))]
             [ [("name", JStr "x"); ("createDate", JDict [("$date", JInt (2 ^ 62))])];
               [("value", JInt (-2))] ]
             [ [("value", JInt (-1))] ]
             [ [("value", JInt (-2))] ]
             [("name", JStr "x"); ("createDate", JDict [("$date", JInt (2 ^ 62))])]
             OSError
             [ (INFO, "No negative values found in brands.");
               (WARNING, "Inconsistent schema in brands at line number 1") ]
             eq_refl eq_refl);
    [by vm_compute | | by vm_compute].
  repeat constructor; intros field d timestamp Hfield Hdate; cbn [Dict.get] in Hfield;
    repeat (destruct (String.eqb _ field); [by simplify_eq |]); discriminate.
Defined.

(** ** What the checks of a record read *)

Section ReadsEntityOnly.

Context `{Runtime}.
Variables c c' : Checker.
Hypothesis Hentity : entity c = entity c'.

Lemma agree_ret {A} (a : A) : agree c c' (mret a) (mret a).
Proof. intros written. by exists (Ok a), written. Qed.

Lemma agree_raise {A} (e : Exn) : agree c c' (@raise A e) (raise e).
Proof. intros written. by exists (Raise e), written. Qed.

Lemma agree_lift {A} (r : Res A) : agree c c' (lift r) (lift r).
Proof. intros written. by exists r, written. Qed.

Lemma agree_logger (level : Level) (msg : string) :
  agree c c' (logger level msg) (logger level msg).
Proof. intros written. by exists (Ok tt), (written ++ [(level, msg)]). Qed.

Lemma agree_bind {A B} (m m' : M A) (f f' : A → M B) :
  agree c c' m m' → (∀ a, agree c c' (f a) (f' a)) → agree c c' (m ≫= f) (m' ≫= f').
Proof.
  intros Hm Hf written. unfold mbind, M_bind.
  destruct (Hm written) as (r & found & -> & ->).
  destruct r as [a | e]; [apply Hf | by exists (Raise e), found].
Qed.

Lemma agree_for_each {A} (xs : list A) (body body' : A → M unit) :
  (∀ x, agree c c' (body x) (body' x)) → agree c c' (for_each xs body) (for_each xs body').
Proof.
  intros Hbody. induction xs as [|x xs IH]; simpl; [apply agree_ret |].
  apply agree_bind; [apply Hbody | intros _; exact IH].
Qed.

Lemma agree_with_self {A} (f f' : Checker → M A) :
  agree c c' (f c) (f' c') → agree c c' (get_self ≫= f) (get_self ≫= f').
Proof. intros Hf written. apply Hf. Qed.

(** Walks a method body on the two checkers at once. *)
Ltac agree_step :=
  first
    [ apply agree_with_self; rewrite <- ?Hentity
    | apply agree_for_each
    | apply agree_bind
    | apply agree_logger
    | apply agree_ret
    | apply agree_raise
    | apply agree_lift
    | match goal with
      | |- ∀ _, _ => intros ?
      | |- agree _ _ (match ?x with _ => _ end) _ => destruct x
      | |- agree _ _ (let '(_, _) := ?x in _) _ => destruct x
      end ].

Lemma agree_check_date_format item index :
  agree c c' (check_date_format item index) (check_date_format item index).
Proof.
  unfold check_date_format. apply agree_with_self. apply agree_for_each. intros field.
  unfold check_date_field. rewrite <- Hentity. repeat agree_step.
Qed.

Lemma agree_check_field item index key value :
  agree c c' (check_field item index key value) (check_field item index key value).
Proof.
  unfold check_field. apply agree_with_self. rewrite <- Hentity.
  destruct (branch_of value); [apply agree_check_date_format | | | apply agree_logger
                              | apply agree_ret].
  - unfold check_negative_numeric_fields. repeat agree_step.
  - unfold check_empty_list. repeat agree_step.
Qed.

Lemma agree_check_item item index expected_keys :
  agree c c' (check_item item index expected_keys) (check_item item index expected_keys).
Proof.
  unfold check_item, check_field_types.
  apply agree_bind; [unfold check_negative_values_in_item; repeat agree_step |].
  intros _. apply agree_bind; [unfold check_schema_consistency; repeat agree_step |].
  intros _. apply agree_bind; [| intros _; unfold check_id_type; repeat agree_step].
  apply agree_for_each. intros [key value]. apply agree_check_field.
Qed.

End ReadsEntityOnly.

(** X23.  The checks of one record read nothing of the checker but the entity
    name: on two checkers with the same entity, whatever file they name and
    whatever collection they hold, the record gets the same outcome and the
    same lines. *)
Theorem check_item_reads_entity_only `{Runtime} (c c' : Checker) (item : dict)
    (index : nat) (expected_keys : gset string) :
  entity c = entity c' →
  findings (check_item item index expected_keys) c =
  findings (check_item item index expected_keys) c'.
Proof.
  intros Hentity. unfold findings.
  by destruct (agree_check_item c c' Hentity item index expected_keys [])
    as (r & found & -> & ->).
Qed.

Lemma check_item_reads_entity_only_witness :
  let item : dict := [("name", JStr "x"); ("count", JInt (-1))] in
  let c := mkChecker "data/users.json" (Some [item; item]) "users" in
  let c' := mkChecker "backup/2021/users.bak" None "users" in
  @findings unit (@check_item Sample.runtime item 4 {["name"]}) c =
  @findings unit (@check_item Sample.runtime item 4 {["name"]}) c'.
Proof.
  apply (@check_item_reads_entity_only Sample.runtime
           (mkChecker "data/users.json"
              (Some [ [("name", JStr "x"); ("count", JInt (-1))];
                      [("name", JStr "x"); ("count", JInt (-1))] ]) "users")
           (mkChecker "backup/2021/users.bak" None "users")).
  reflexivity.
Defined.

(** * Worked instances *)

Lemma check_date_format_without_dates_witness :
  let item : dict := [("name", JStr "x"); ("total", JInt 3)] in
  let st := mkState (mkChecker "data/users.json" None "users") [] in
  Forall (fun field => Dict.get field item = None) date_fields ∧
  @check_date_format Sample.runtime item 3 st =
    (Ok tt,
     emit st [(WARNING, "Missing date field 'lastLogin' in users data at line number 3")]).
Proof.
  split; [by repeat constructor |].
  rewrite (@check_date_format_without_dates Sample.runtime
             [("name", JStr "x"); ("total", JInt 3)] 3
             (mkState (mkChecker "data/users.json" None "users") []));
    [reflexivity | by repeat constructor].
Defined.

